(** * hw_device_mgr: the device manager, its error devices and its main loop

  A shallow embedding of

  - [hw_device_mgr/errors/device.py]  ([ErrorDevice]),
  - [hw_device_mgr/mgr/mgr.py]        ([HWDeviceMgr], its fysom state
    machine and its [run_loop]),
  - [hal_402_device_mgr/hal_402_mgr.py] ([Hal402Mgr.get_error_info] and the
    drive status checks),

  together with the properties of the manager that the specification
  states.  Python objects are records, their methods are functions that
  pass the object explicitly, dictionaries are [gmap]s or association
  lists where the order counts, and exceptions are results of a small
  state-and-exception monad in which, as in Python, the mutations made
  before a [raise] survive it. *)

From Stdlib Require Import Ascii.
From stdpp Require Import base strings list gmap pretty.

Local Open Scope string_scope.
Local Open Scope N_scope.

(** ** Logging *)

Inductive level := DEBUG | INFO | WARNING | ERROR.

#[global] Instance level_eq_dec : EqDecision level.
Proof. solve_decision. Defined.

(** A logger is the sequence of records it has been handed, oldest first. *)
Abbreviation Logger := (list (level * string)).

Definition log (lv : level) (msg : string) (lg : Logger) : Logger :=
lg ++ [(lv, msg)].

(** The messages logged at level [lv], oldest first. *)
Definition logged (lv : level) (lg : Logger) : list string :=
(filter (λ r, r.1 = lv) lg).*2.

(** ** Interfaces

  The [Interface] class ([hw_device_mgr/interface.py]) is not among the
  sources; the manager and the devices use its [get], [get_old],
  [update], [changed] and [rising_edge]. *)

(** Modelled from the spec: section 4.1, "Interface Bundle".  A bundle
  holds a current and a previous value per declared attribute; here the
  attributes of one bundle are the fields of a record [A]. *)
Record Interface (A : Type) := mkInterface {
values : A;
values_old : A;
}.
Arguments mkInterface {A} _ _.
Arguments values {A} _.
Arguments values_old {A} _.

Section Interface.
Context {A : Type}.

(** Modelled from the spec: section 4.1, [update] "sets current values";
    the previous ones stay.  [f] writes the keywords of the call into the
    record. *)
Definition update (f : A → A) (i : Interface A) : Interface A :=
  mkInterface (f (values i)) (values_old i).

(** Modelled from the spec: section 4.1, [changed(key)] is "current ≠
    previous". *)
Definition changed {B} `{EqDecision B} (key : A → B) (i : Interface A) : bool :=
  bool_decide (key (values i) ≠ key (values_old i)).

(** Modelled from the spec: section 4.1, the snapshot boundary that
    [advance] sets once per tick, "previous ← current".  [run_loop] makes
    no such call of its own: the boundary of a bundle is the call that
    its owner makes through [super()] at the start of the bundle's cycle
    ([super().get_feedback()] for [feedback_out], [super().set_command()]
    for [command_in] and [command_out]).  The base class [Device] is not
    among the sources; [reinit] is what its call leaves as the bundle's
    current values, and it stays a parameter of the model. *)
Definition advance (reinit : A → A) (i : Interface A) : Interface A :=
  mkInterface (reinit (values i)) (values i).
End Interface.

(** Modelled from the spec: section 4.1, [rising_edge(key)] is "previous
    falsy and current truthy". *)
Definition rising_edge {A} (key : A → bool) (i : Interface A) : bool :=
  negb (key (values_old i)) && key (values i).

(** ** Error devices: [hw_device_mgr/errors/device.py] *)

Module ErrorDevice.

(** [feedback_in_data_types = dict(error_code="uint32")]. *)
Record FeedbackIn := mkFeedbackIn { in_error_code : N }.

(** [feedback_out_data_types]: [error_code], [description], [advice]. *)
Record FeedbackOut := mkFeedbackOut {
  error_code : N;
  description : string;
  advice : string;
}.

Definition feedback_in_defaults : FeedbackIn := mkFeedbackIn 0.

Definition feedback_out_defaults : FeedbackOut :=
  mkFeedbackOut 0 "No error" "No error".

(** [no_error = feedback_out_defaults]. *)
Definition no_error : FeedbackOut := feedback_out_defaults.

(** One entry of the model's error YAML file. *)
Record ErrorInfo := mkErrorInfo {
  info_description : string;
  info_advice : string;
}.

(** An error device: its name ([str(self)]), the error catalog of its
    model ([error_descriptions()], read once from the YAML resource), its
    two feedback bundles and its logger. *)
Record t := mk {
  name : string;
  error_descriptions : gmap N ErrorInfo;
  feedback_in : Interface FeedbackIn;
  feedback_out : Interface FeedbackOut;
  logger : Logger;
}.

Definition set_feedback_out (fb : Interface FeedbackOut) (d : t) : t :=
  mk (name d) (error_descriptions d) (feedback_in d) fb (logger d).

Definition set_logger (lg : Logger) (d : t) : t :=
  mk (name d) (error_descriptions d) (feedback_in d) (feedback_out d) lg.

(** Lines 63-68 of [get_feedback]: the catalog entry of [error_code], or
    the entry made up for a code the catalog lacks. *)
Definition error_info (errs : gmap N ErrorInfo) (error_code : N) : ErrorInfo :=
  match errs !! error_code with
  | Some info => info
  | None =>
      mkErrorInfo ("Unknown error code " +:+ pretty error_code)
                  "Contact technical support"
  end.

(** [reinit] is what [super().get_feedback()] leaves as current values of
    [feedback_out]. *)
Definition get_feedback (reinit : FeedbackOut → FeedbackOut) (d : t) : t :=
  let d := set_feedback_out (advance reinit (feedback_out d)) d in
  let error_code := in_error_code (values (feedback_in d)) in
  if N.eqb error_code 0 then
    (* [if not error_code:] *)
    set_feedback_out (update (λ _, no_error) (feedback_out d)) d
  else
    let info := error_info (error_descriptions d) error_code in
    let d :=
      set_feedback_out
        (update (λ _, mkFeedbackOut error_code (info_description info)
                        (info_advice info))
           (feedback_out d)) d in
    if changed ErrorDevice.error_code (feedback_out d) then
      let msg := name d +:+ ":  error code " +:+ pretty error_code
                 +:+ ":  " +:+ info_description info in
      set_logger (log ERROR msg (logger d)) d
    else d.

End ErrorDevice.

(** ** The unknown-error entry of the older manager:
    [hal_402_device_mgr/hal_402_mgr.py] *)

Module Hal402Mgr.

Record ErrorInfo := mkErrorInfo {
  description : string;
  solution : string;
}.

(** [devices_error_list[devicetype]['errors']], per device type. *)
Definition get_error_info
    (devices_error_list : gmap string (gmap N ErrorInfo))
    (devicetype : string) (error_code : N) : ErrorInfo :=
  match devices_error_list !! devicetype ≫= (λ errs, errs !! error_code) with
  | Some info => info
  | None =>
      (* [except KeyError] *)
      mkErrorInfo "This error is an unknown error."
                  "Please contact your hardware support department."
  end.

End Hal402Mgr.

(** ** Python strings *)

(** [s.startswith(p)]. *)
Definition startswith (s p : string) : bool := String.prefix p s.

(** [s.split(sep)] for a one-character separator. *)
Fixpoint split (sep : ascii) (s : string) : list string :=
  match s with
  | "" => [""]
  | String c s' =>
      if Ascii.eqb c sep then "" :: split sep s'
      else match split sep s' with
           | w :: ws => String c w :: ws
           | [] => [String c ""]
           end
  end.

(** [c.lower()] on the ASCII letters. *)
Definition lower_ascii (c : ascii) : ascii :=
  let n := N_of_ascii c in
  if N.leb 65 n && N.leb n 90 then ascii_of_N (n + 32) else c.

Fixpoint lower (s : string) : string :=
  match s with
  | "" => ""
  | String c s' => String (lower_ascii c) (lower s')
  end.

(** [sep.join(l)]. *)
Fixpoint join (sep : string) (l : list string) : string :=
  match l with
  | [] => ""
  | [x] => x
  | x :: l' => x +:+ sep +:+ join sep l'
  end.

(** [str(b)] of a Python [bool]. *)
Definition str_bool (b : bool) : string := if b then "True" else "False".

(** The truth value of a Python list. *)
Definition truth {A} (l : list A) : bool :=
  match l with [] => false | _ :: _ => true end.

(** ** Exceptions and the state-and-exception monad *)

(** The exception classes the manager's tick meets: the operator's
    interrupt, fysom's [Canceled] and [FysomError], the [KeyError] of a
    dictionary or bundle access, and [Exception] for any other error a
    collaborator raises.  All but [KeyboardInterrupt] derive from Python's
    [Exception]. *)
Inductive exn :=
  | KeyboardInterrupt (msg : string)
  | Canceled (msg : string)
  | FysomError (msg : string)
  | KeyError (key : string)
  | Exception (msg : string).

#[global] Instance exn_eq_dec : EqDecision exn.
Proof. solve_decision. Defined.

(** [isinstance(e, Exception)]. *)
Definition is_Exception (e : exn) : bool :=
  match e with KeyboardInterrupt _ => false | _ => true end.

(** [str(e)]. *)
Definition str_exn (e : exn) : string :=
  match e with
  | KeyboardInterrupt m | Canceled m | FysomError m | Exception m => m
  | KeyError k => "'" +:+ k +:+ "'"
  end.

(** [traceback.format_exc().splitlines()]: the stack frames are not
    modelled, the last line names the exception. *)
Definition format_exc (e : exn) : list string :=
  [ "Traceback (most recent call last):";
    match e with
    | KeyboardInterrupt _ => "KeyboardInterrupt"
    | Canceled _ => "fysom.Canceled"
    | FysomError _ => "fysom.FysomError"
    | KeyError _ => "KeyError"
    | Exception _ => "Exception"
    end +:+ ": " +:+ str_exn e ].

Inductive result (A : Type) :=
  | Ok (a : A)
  | Raise (e : exn).
Arguments Ok {A} _.
Arguments Raise {A} _.

(** A method of an object of type [S]: it returns or raises, and in both
    cases leaves the object in a new state. *)
Definition M (S A : Type) : Type := S → result A * S.

Definition ret {S A} (a : A) : M S A := λ s, (Ok a, s).

Definition bind {S A B} (c : M S A) (k : A → M S B) : M S B :=
  λ s, match c s with
       | (Ok a, s') => k a s'
       | (Raise e, s') => (Raise e, s')
       end.

Definition raise {S A} (e : exn) : M S A := λ s, (Raise e, s).

Definition gets {S A} (f : S → A) : M S A := λ s, (Ok (f s), s).

Definition modify {S} (f : S → S) : M S unit := λ s, (Ok tt, f s).

(** [try: c  except <handled>: h  else: k]. *)
Definition try_except_else {S A B} (c : M S A) (handler : exn → option (M S B))
    (k : A → M S B) : M S B :=
  λ s, match c s with
       | (Ok a, s') => k a s'
       | (Raise e, s') =>
           match handler e with
           | Some h => h s'
           | None => (Raise e, s')
           end
       end.

(** [d[key]] on a dictionary: [KeyError] when the key is missing. *)
Definition getitem {S A} (key : string) (o : option A) : M S A :=
  match o with
  | Some a => ret a
  | None => raise (KeyError key)
  end.

Notation "x <- c ;; k" := (bind c (λ x, k))
  (at level 100, c at next level, right associativity).
Notation "c ;;; k" := (bind c (λ _, k))
  (at level 100, right associativity).

(** ** The device manager: [hw_device_mgr/mgr/mgr.py] *)

Module HWDeviceMgr.

Definition STATE_INIT : N := 0.
Definition STATE_STOP : N := 1.
Definition STATE_START : N := 2.
Definition STATE_FAULT : N := 4.

(** *** Drives

    The drive classes ([CiA402Device] and its parents) are not among the
    sources.  The manager reads a drive's [feedback_out] bundle, copies it
    into its own under the drive's prefix, and hands the drive a state
    command. *)

Module DevFeedbackOut.
(** Modelled from the spec: section 3, "DriveFeedback", with the key
    [oper] that [fsm_check_devices_online] queries for the spec's
    [operational]. *)
Record t := mk {
  state : string;
  oper : bool;
  goal_reached : bool;
  goal_reason : string;
  fault : bool;
  fault_desc : string;
  status_word : N;
  error_code : N;
}.

#[global] Instance eq_dec : EqDecision t.
Proof. solve_decision. Defined.
End DevFeedbackOut.

Module Device.
(** A drive as the manager sees it: [addr_slug] and [slug_separator] make
    its prefix, [name] is [str(dev)], [cia402] is
    [hasattr(dev, "MODE_CSP")], [command_state] is the [state] last passed
    to [dev.set_command]. *)
Record t := mk {
  addr_slug : string;
  slug_separator : string;
  name : string;
  cia402 : bool;
  feedback_out : Interface DevFeedbackOut.t;
  command_state : string;
}.

Definition set_feedback_out (fb : Interface DevFeedbackOut.t) (d : t) : t :=
  mk (addr_slug d) (slug_separator d) (name d) (cia402 d) fb (command_state d).

Definition set_command (state : string) (d : t) : t :=
  mk (addr_slug d) (slug_separator d) (name d) (cia402 d) (feedback_out d) state.
End Device.

(** *** The manager's bundles *)

Module FeedbackOut.
(** [fault], [fault_desc], [goal_reached] and [goal_reason] are inherited
    from [Device]; [enabled] is the manager's own (lines 26-31); [devs]
    holds, under each drive's prefix, the copy of that drive's attributes
    ([init_devices], lines 107-119). *)
Record t := mk {
  fault : bool;
  fault_desc : string;
  goal_reached : bool;
  goal_reason : string;
  enabled : bool;
  devs : gmap string DevFeedbackOut.t;
}.

(** Modelled from the spec: the defaults of the four attributes that the
    manager inherits from [Device], which is not among the sources, are
    those of a device without a fault that has reached its goal (section
    4.4); [enabled=False] is the manager's [feedback_out_defaults]. *)
Definition defaults : t := mk false "" true "" false ∅.
End FeedbackOut.

Module CommandIn.
Record t := mk {
  state_cmd : N;
  state_set : bool;
}.

Definition defaults : t := mk STATE_INIT false.
End CommandIn.

Module CommandOut.
Record t := mk {
  state : N;
  state_log : string;
  command_complete : bool;
  reset : bool;
  drive_state : string;
}.

Definition defaults : t := mk 0 "(Uninitialized)" false false "SWITCH ON DISABLED".

Definition set_state (v : N) (c : t) : t :=
  mk v (state_log c) (command_complete c) (reset c) (drive_state c).
Definition set_state_log (v : string) (c : t) : t :=
  mk (state c) v (command_complete c) (reset c) (drive_state c).
Definition set_command_complete (v : bool) (c : t) : t :=
  mk (state c) (state_log c) v (reset c) (drive_state c).
Definition set_reset (v : bool) (c : t) : t :=
  mk (state c) (state_log c) (command_complete c) v (drive_state c).
Definition set_drive_state (v : string) (c : t) : t :=
  mk (state c) (state_log c) (command_complete c) (reset c) v.

(** A Python value of one of the bundle's data types. *)
Inductive value :=
  | VInt (n : N)
  | VBool (b : bool)
  | VStr (s : string).

(** Python's truth value. *)
Definition truthy (v : value) : bool :=
  match v with
  | VInt n => negb (N.eqb n 0)
  | VBool b => b
  | VStr s => negb (String.eqb s "")
  end.

(** Modelled from the spec: section 4.1, "accessing an undeclared key is a
    programmer error (fatal)".  [get(key)] by name, over the attributes
    that [command_out_defaults] (lines 41-47) declares. *)
Definition get (key : string) (c : t) : option value :=
  if String.eqb key "state" then Some (VInt (state c))
  else if String.eqb key "state_log" then Some (VStr (state_log c))
  else if String.eqb key "command_complete" then Some (VBool (command_complete c))
  else if String.eqb key "reset" then Some (VBool (reset c))
  else if String.eqb key "drive_state" then Some (VStr (drive_state c))
  else None.
End CommandOut.

(** *** The manager object *)

(** [state] is the field of the fysom state machine ([state_field="state"]);
    [slept] counts the calls of [time.sleep] in [run_loop]. *)
Record t := mk {
  state : string;
  feedback_out : Interface FeedbackOut.t;
  command_in : Interface CommandIn.t;
  command_out : Interface CommandOut.t;
  devices : list Device.t;
  fast_track : bool;
  shutdown : bool;
  logger : Logger;
  slept : nat;
}.

Definition with_state (v : string) (m : t) : t :=
  mk v (feedback_out m) (command_in m) (command_out m) (devices m)
     (fast_track m) (shutdown m) (logger m) (slept m).
Definition with_feedback_out (v : Interface FeedbackOut.t) (m : t) : t :=
  mk (state m) v (command_in m) (command_out m) (devices m)
     (fast_track m) (shutdown m) (logger m) (slept m).
Definition with_command_in (v : Interface CommandIn.t) (m : t) : t :=
  mk (state m) (feedback_out m) v (command_out m) (devices m)
     (fast_track m) (shutdown m) (logger m) (slept m).
Definition with_command_out (v : Interface CommandOut.t) (m : t) : t :=
  mk (state m) (feedback_out m) (command_in m) v (devices m)
     (fast_track m) (shutdown m) (logger m) (slept m).
Definition with_devices (v : list Device.t) (m : t) : t :=
  mk (state m) (feedback_out m) (command_in m) (command_out m) v
     (fast_track m) (shutdown m) (logger m) (slept m).
Definition with_fast_track (v : bool) (m : t) : t :=
  mk (state m) (feedback_out m) (command_in m) (command_out m) (devices m)
     v (shutdown m) (logger m) (slept m).
Definition with_shutdown (v : bool) (m : t) : t :=
  mk (state m) (feedback_out m) (command_in m) (command_out m) (devices m)
     (fast_track m) v (logger m) (slept m).
Definition with_logger (v : Logger) (m : t) : t :=
  mk (state m) (feedback_out m) (command_in m) (command_out m) (devices m)
     (fast_track m) (shutdown m) v (slept m).
Definition with_slept (v : nat) (m : t) : t :=
  mk (state m) (feedback_out m) (command_in m) (command_out m) (devices m)
     (fast_track m) (shutdown m) (logger m) v.

(** [self.command_out.update(...)]. *)
Definition command_out_update (f : CommandOut.t → CommandOut.t) (m : t) : t :=
  with_command_out (update f (command_out m)) m.

(** [self.logger.<level>(msg)]. *)
Definition logger_log (lv : level) (msg : string) (m : t) : t :=
  with_logger (log lv msg (logger m)) m.

(** The manager after [__init__] and [init]: the state machine in
    [init_command], every bundle at its defaults. *)
Definition init (devices : list Device.t) : t :=
  mk "init_command"
     (mkInterface FeedbackOut.defaults FeedbackOut.defaults)
     (mkInterface CommandIn.defaults CommandIn.defaults)
     (mkInterface CommandOut.defaults CommandOut.defaults)
     devices false false [] 0.

(** [dev_prefix(dev, suffix=...)], with the default [prefix="d"]. *)
Definition dev_prefix (dev : Device.t) (suffix : string) : string :=
  "d" +:+ Device.addr_slug dev +:+ suffix.

(** *** Feedback *)

(** [rev_descriptions.setdefault(desc, list()).append(dev)] on an ordered
    dictionary. *)
Fixpoint setdefault_append (desc dev : string) (rev : list (string * list string))
    : list (string * list string) :=
  match rev with
  | [] => [(desc, [dev])]
  | (d, devs) :: rev' =>
      if String.eqb d desc then (d, (devs ++ [dev])%list) :: rev'
      else (d, devs) :: setdefault_append desc dev rev'
  end.

(** [descriptions] is the dictionary [device:description] in insertion
    order, each device by its [str(dev)]. *)
Definition merge_device_descriptions (descriptions : list (string * string)) : string :=
  let rev_descriptions :=
    foldl (λ rev '(dev, desc),
             if String.eqb desc "" then rev  (* Ignore empty descriptions *)
             else setdefault_append desc dev rev)
          [] descriptions in
  let description_strings :=
    (λ '(desc, dev_list), desc +:+ " (" +:+ join "," dev_list +:+ ")")
      <$> rev_descriptions in
  join "; " description_strings.

(** The local variables of the loop over the drives in [get_feedback]. *)
Record fb_loop := mk_fb_loop {
  l_mgr_fb_out : Interface FeedbackOut.t;
  l_devices : list Device.t;
  l_new_fault : bool;
  l_fault_devs : list (string * string);
  l_waiting_devs : list (string * string);
}.

(** One turn of the loop, lines 468-486.  [dev_get_feedback] is the drive's
    own [get_feedback]: it yields the drive's new [feedback_out] values,
    which become current as the previous ones become old. *)
Definition get_feedback_dev (dev_get_feedback : Device.t → DevFeedbackOut.t)
    (l : fb_loop) (dev : Device.t) : fb_loop :=
  let dev_fb_out :=
    advance (λ _, dev_get_feedback dev) (Device.feedback_out dev) in
  let dev := Device.set_feedback_out dev_fb_out dev in
  let prefix := dev_prefix dev (Device.slug_separator dev) in
  (* Copy device fb_out to mgr fb_out, adding prefix *)
  let mgr_fb_out :=
    update (λ v, FeedbackOut.mk (FeedbackOut.fault v) (FeedbackOut.fault_desc v)
                   (FeedbackOut.goal_reached v) (FeedbackOut.goal_reason v)
                   (FeedbackOut.enabled v)
                   (<[prefix := values dev_fb_out]> (FeedbackOut.devs v)))
           (l_mgr_fb_out l) in
  (* Which devices are in fault state and why *)
  let new_fault :=
    if DevFeedbackOut.fault (values dev_fb_out) then
      if changed DevFeedbackOut.fault dev_fb_out then true else l_new_fault l
    else l_new_fault l in
  let fault_devs :=
    if DevFeedbackOut.fault (values dev_fb_out) then
      (l_fault_devs l
         ++ [(Device.name dev, DevFeedbackOut.fault_desc (values dev_fb_out))])%list
    else l_fault_devs l in
  (* Which devices haven't reached goal state and why *)
  let waiting_devs :=
    if negb (DevFeedbackOut.goal_reached (values dev_fb_out)) then
      (l_waiting_devs l
         ++ [(Device.name dev, DevFeedbackOut.goal_reason (values dev_fb_out))])%list
    else l_waiting_devs l in
  mk_fb_loop mgr_fb_out (l_devices l ++ [dev])%list new_fault fault_devs waiting_devs.

(** [get_feedback], lines 455-533.  [reinit] is what
    [super().get_feedback()] leaves as the current values of the manager's
    [feedback_out]. *)
Definition get_feedback (reinit : FeedbackOut.t → FeedbackOut.t)
    (dev_get_feedback : Device.t → DevFeedbackOut.t) (m : t) : t :=
  let mgr_fb_out := advance reinit (feedback_out m) in
  let fault := FeedbackOut.fault (values mgr_fb_out) in
  let fault_desc := FeedbackOut.fault_desc (values mgr_fb_out) in
  let goal_reached := true in
  let goal_reason := "" in
  let cmd_out := command_out m in
  (* Get device feedback *)
  let l := foldl (get_feedback_dev dev_get_feedback)
                 (mk_fb_loop mgr_fb_out [] false [] []) (devices m) in
  let mgr_fb_out := l_mgr_fb_out l in
  let new_fault := l_new_fault l in
  let fault_devs := l_fault_devs l in
  let waiting_devs := l_waiting_devs l in
  (* Set goal reached & reason status *)
  let '(goal_reached, goal_reason) :=
    if negb (CommandOut.command_complete (values cmd_out)) then
      (false,
       if truth waiting_devs then
         "Waiting on " +:+ pretty (length waiting_devs) +:+ " devices"
       else "Waiting on device manager internal transitions")
    else (goal_reached, goal_reason) in
  (* Fault feedback:  set or not, and fault description *)
  let '(fault, fault_desc) :=
    if N.eqb (CommandOut.state (values cmd_out)) STATE_FAULT then
      (true, FeedbackOut.fault_desc (values_old mgr_fb_out))
    else if new_fault then
      (true, merge_device_descriptions fault_devs)
    else (fault, fault_desc) in
  (* Description of why devices haven't reached goal *)
  let goal_reason :=
    if truth waiting_devs then
      merge_device_descriptions waiting_devs
    else goal_reason in
  (* Drives enabled or not *)
  let enabled :=
    N.eqb (CommandOut.state (values cmd_out)) STATE_START
    && goal_reached && negb fault in
  (* Update feedback out, log, return *)
  let mgr_fb_out :=
    update (λ v, FeedbackOut.mk fault fault_desc goal_reached goal_reason
                   enabled (FeedbackOut.devs v))
           mgr_fb_out in
  let m := with_devices (l_devices l) (with_feedback_out mgr_fb_out m) in
  if changed FeedbackOut.goal_reason mgr_fb_out then
    if FeedbackOut.goal_reached (values mgr_fb_out) then
      logger_log DEBUG "Manager reached goal state" m
    else
      logger_log DEBUG ("Waiting:  " +:+ FeedbackOut.goal_reason (values mgr_fb_out)) m
  else m.

(** *** The state machine: the fysom events and their handlers *)

Module Event.
(** fysom's event object [e]: the event's name, the state it leaves and
    the state it enters, the [msg] keyword of [trigger], and the [reset]
    attribute that [on_enter_start_2] and [on_enter_start_complete] set. *)
Record t := mk {
  event : string;
  src : string;
  dst : string;
  msg : string;
  reset : option bool;
}.

Definition set_msg (v : string) (e : t) : t :=
  mk (event e) (src e) (dst e) v (reset e).
Definition set_reset (v : bool) (e : t) : t :=
  mk (event e) (src e) (dst e) (msg e) (Some v).
End Event.

(** [GSM]: the events as [(name, src, dst)].  For [initial] fysom first
    records the event ["init_command"] from its state ["none"]; the event
    of the same name in [events] replaces that entry, and the object
    starts in the state [init_command] ([init] below). *)
Definition GSM_events : list (string * string * string) :=
  [ ("init_command", "init_command", "init_1");
    ("init_complete", "init_1", "init_complete");
    ("fault_command", "*", "fault_1");
    ("fault_complete", "fault_1", "fault_complete");
    ("start_command", "*", "start_1");
    ("start_2", "start_1", "start_2");
    ("start_complete", "start_2", "start_complete");
    ("stop_command", "*", "stop_1");
    ("stop_complete", "stop_1", "stop_complete") ].

(** The state [event] leads to from [src], if it may fire there: the entry
    for [src] itself, else the entry for any state. *)
Definition GSM_dst (event src : string) : option string :=
  let entry (s : string) :=
    find (λ x, String.eqb event x.1.1 && String.eqb s x.1.2) GSM_events in
  match entry src with
  | Some x => Some x.2
  | None => (λ x, x.2) <$> entry "*"
  end.

(** The attributes [STATE_*] of the class, as [dir(self)] lists them. *)
Definition STATE_attrs : list (string * N) :=
  [ ("STATE_FAULT", STATE_FAULT); ("STATE_INIT", STATE_INIT);
    ("STATE_START", STATE_START); ("STATE_STOP", STATE_STOP) ].

Definition cmd_name_to_int_map : gmap string N :=
  list_to_map ((λ kv, (lower (split "_" kv.1 !!! 1%nat), kv.2)) <$> STATE_attrs).

Definition cmd_int_to_name_map : gmap N string :=
  list_to_map ((λ kv, (kv.2, kv.1)) <$> map_to_list cmd_name_to_int_map).

(** [state_str]: raises [KeyError] on a command that has no name. *)
Definition state_str : M t string :=
  st <- gets (λ m, CommandOut.state (values (command_out m))) ;;
  getitem (pretty st) (cmd_int_to_name_map !! st).

Definition fsm_command_from_event (e : Event.t) : string :=
  split "_" (Event.dst e) !!! 0%nat.

(** [query_devices(changed, key=val)] with one keyword whose value is not
    callable, which is how the manager calls it. *)
Definition query_devices {B} `{EqDecision B} (changed_too : bool)
    (key : DevFeedbackOut.t → B) (val : B) (m : t) : list Device.t :=
  List.filter
    (λ dev, bool_decide (key (values (Device.feedback_out dev)) = val)
            && (negb changed_too || changed key (Device.feedback_out dev)))
    (devices m).

Definition fsm_check_devices_online (e : Event.t) (state : string) (m : t)
    : list Device.t :=
  query_devices false DevFeedbackOut.oper false m.

(** The handlers return their result together with the event object, which
    they may have written to. *)
Definition fsm_check_command (e : Event.t) : M t (bool * Event.t) :=
  let state_cmd_str := fsm_command_from_event e in
  state_cmd <- getitem state_cmd_str (cmd_name_to_int_map !! state_cmd_str) ;;
  if (startswith (Event.src e) "init"
      && negb (String.eqb (Event.src e) "init_complete"))
     && negb (N.eqb state_cmd STATE_INIT) then
    (* Don't preempt init (fault) *)
    let msg := "Ignoring " +:+ state_cmd_str +:+ " command in init state "
               +:+ Event.src e in
    modify (command_out_update
              (λ c, CommandOut.set_state_log msg (CommandOut.set_state STATE_INIT c))) ;;;
    ch <- gets (λ m, changed CommandOut.state (command_out m)) ;;
    (if ch : bool then modify (logger_log WARNING msg) else ret tt) ;;;
    ret (false, e)
  else if negb (String.eqb (Event.src e) (state_cmd_str +:+ "_command"))
          && startswith (Event.src e) state_cmd_str then
    (* Already running *)
    let e := Event.set_msg ("Ignoring " +:+ state_cmd_str +:+ " command from state "
                            +:+ Event.src e) e in
    modify (logger_log WARNING (Event.msg e)) ;;;
    ret (false, e)
  else
    modify (logger_log DEBUG ("Received " +:+ state_cmd_str +:+ " command:  "
                              +:+ Event.msg e)) ;;;
    modify (command_out_update
              (λ c, CommandOut.set_command_complete false
                      (CommandOut.set_state_log (Event.msg e)
                         (CommandOut.set_state state_cmd c)))) ;;;
    ret (true, e).

Definition fsm_check_drive_goal_state (e : Event.t) (m : t) : bool :=
  (* If all drives reached goal state, return success *)
  let drives_not_reached_goal :=
    query_devices false DevFeedbackOut.goal_reached false m in
  negb (truth drives_not_reached_goal).

Definition fsm_set_drive_state_cmd (e : Event.t) (state : string) : M t unit :=
  let cmd_name := fsm_command_from_event e in
  modify (logger_log INFO (cmd_name +:+ " command:  Setting drive state command to "
                           +:+ state)) ;;;
  modify (command_out_update (CommandOut.set_drive_state state)).

Definition fsm_finalize_command (e : Event.t) : M t unit :=
  let cmd_name := fsm_command_from_event e in
  modify (command_out_update (CommandOut.set_command_complete true)) ;;;
  modify (logger_log INFO ("Command " +:+ cmd_name +:+ " completed")).

Definition on_before_init_command (e : Event.t) := fsm_check_command e.

Definition on_enter_init_1 (e : Event.t) : M t Event.t :=
  modify (logger_log INFO "Waiting for devices to come online before init") ;;;
  ret e.

Definition on_before_init_complete (e : Event.t) : M t (bool * Event.t) :=
  online <- gets (fsm_check_devices_online e "INIT") ;;
  if truth online then ret (false, e)
  else
    goal <- gets (fsm_check_drive_goal_state e) ;;
    ret (goal, e).

Definition on_enter_init_complete (e : Event.t) : M t Event.t :=
  fsm_finalize_command e ;;;
  (* Automatically return to SWITCH ON DISABLED after init *)
  modify (logger_log INFO "Devices all online; commanding stop state") ;;;
  modify (command_out_update
            (λ c, CommandOut.set_state_log "Automatic 'stop' command at init complete"
                    (CommandOut.set_state STATE_STOP c))) ;;;
  ret e.

Definition on_before_fault_command (e : Event.t) : M t (bool * Event.t) :=
  r <- fsm_check_command e ;;
  if r.1 then modify (logger_log ERROR "Entering fault state") ;;; ret (true, r.2)
  else ret (false, r.2).

Definition on_enter_fault_1 (e : Event.t) : M t Event.t :=
  fsm_set_drive_state_cmd e "FAULT" ;;; ret e.

Definition on_enter_fault_complete (e : Event.t) : M t Event.t :=
  fsm_finalize_command e ;;; ret e.

Definition on_before_start_command (e : Event.t) := fsm_check_command e.

Definition on_enter_start_1 (e : Event.t) : M t Event.t :=
  fsm_set_drive_state_cmd e "SWITCHED ON" ;;; ret e.

Definition on_before_start_2 (e : Event.t) : M t (bool * Event.t) :=
  goal <- gets (fsm_check_drive_goal_state e) ;; ret (goal, e).

Definition on_enter_start_2 (e : Event.t) : M t Event.t :=
  (* Set reset during transition to OPERATION ENABLED *)
  let e := Event.set_reset true e in
  fsm_set_drive_state_cmd e "OPERATION ENABLED" ;;; ret e.

Definition on_before_start_complete (e : Event.t) : M t (bool * Event.t) :=
  goal <- gets (fsm_check_drive_goal_state e) ;; ret (goal, e).

Definition on_enter_start_complete (e : Event.t) : M t Event.t :=
  (* Clear reset in OPERATION ENABLED *)
  let e := Event.set_reset false e in
  fsm_finalize_command e ;;; ret e.

Definition on_before_stop_command (e : Event.t) := fsm_check_command e.

Definition on_enter_stop_1 (e : Event.t) : M t Event.t :=
  fsm_set_drive_state_cmd e "SWITCH ON DISABLED" ;;; ret e.

Definition on_before_stop_complete (e : Event.t) : M t (bool * Event.t) :=
  goal <- gets (fsm_check_drive_goal_state e) ;; ret (goal, e).

Definition on_enter_stop_complete (e : Event.t) : M t Event.t :=
  fsm_finalize_command e ;;; ret e.

Definition on_change_state (e : Event.t) : M t unit :=
  (* Set/clear reset command *)
  let reset := default false (Event.reset e) in
  modify (command_out_update (CommandOut.set_reset reset)) ;;;
  ch <- gets (λ m, changed CommandOut.reset (command_out m)) ;;
  if ch : bool then
    modify (logger_log INFO ("Reset command set to " +:+ str_bool reset))
  else ret tt.

(** fysom looks the handlers up by name: [on_before_<event>] and
    [on_enter_<state>]; an event or state without a handler passes. *)
Definition on_before (e : Event.t) : M t (bool * Event.t) :=
  let ev := Event.event e in
  if String.eqb ev "init_command" then on_before_init_command e
  else if String.eqb ev "init_complete" then on_before_init_complete e
  else if String.eqb ev "fault_command" then on_before_fault_command e
  else if String.eqb ev "start_command" then on_before_start_command e
  else if String.eqb ev "start_2" then on_before_start_2 e
  else if String.eqb ev "start_complete" then on_before_start_complete e
  else if String.eqb ev "stop_command" then on_before_stop_command e
  else if String.eqb ev "stop_complete" then on_before_stop_complete e
  else ret (true, e).

Definition on_enter (e : Event.t) : M t Event.t :=
  let st := Event.dst e in
  if String.eqb st "init_1" then on_enter_init_1 e
  else if String.eqb st "init_complete" then on_enter_init_complete e
  else if String.eqb st "fault_1" then on_enter_fault_1 e
  else if String.eqb st "fault_complete" then on_enter_fault_complete e
  else if String.eqb st "start_1" then on_enter_start_1 e
  else if String.eqb st "start_2" then on_enter_start_2 e
  else if String.eqb st "start_complete" then on_enter_start_complete e
  else if String.eqb st "stop_1" then on_enter_stop_1 e
  else if String.eqb st "stop_complete" then on_enter_stop_complete e
  else ret e.

(** [self.trigger(event, msg=msg)] of [FysomGlobalMixin] (the fysom library
    is not part of the repository): [FysomError] when the event may not
    fire in the current state, [Canceled] when [on_before_<event>] returns
    [False]; otherwise the state changes and [on_enter_<dst>] and
    [on_change_state] run. *)
Definition trigger (event msg : string) : M t unit :=
  src <- gets state ;;
  match GSM_dst event src with
  | None =>
      raise (FysomError ("event " +:+ event +:+ " inappropriate in current state "
                         +:+ src))
  | Some dst =>
      r <- on_before (Event.mk event src dst msg None) ;;
      if negb r.1 then
        raise (Canceled ("Cannot trigger event " +:+ event +:+ " because the onbefore"
                         +:+ event +:+ " handler returns False"))
      else if String.eqb src dst then ret tt
      else
        modify (with_state dst) ;;;
        e <- on_enter r.2 ;;
        on_change_state e
  end.

(** *** Commands *)

(** [fsm_next_state_map]: current command to [{current_state: next_event}];
    [None] means arrived. *)
Definition fsm_next_state_map : gmap string (gmap string (option string)) :=
  list_to_map
    [ ("init", list_to_map [("init_1", Some "init_complete"); ("init_complete", None)]);
      ("start", list_to_map [("start_1", Some "start_2");
                             ("start_2", Some "start_complete");
                             ("start_complete", None)]);
      ("stop", list_to_map [("stop_1", Some "stop_complete"); ("stop_complete", None)]);
      ("fault", list_to_map [("fault_1", Some "fault_complete");
                             ("fault_complete", None)]) ].

Definition automatic_next_event : M t (option string) :=
  state_str <- state_str ;;
  state_map <- getitem state_str (fsm_next_state_map !! state_str) ;;
  st <- gets state ;;
  ret (default (Some (state_str +:+ "_command")) (state_map !! st)).

(** Only called while mgr was not previously in fault state. *)
Definition set_command_handle_fault_fb : M t unit :=
  ch <- gets (λ m, changed FeedbackOut.fault (feedback_out m)) ;;
  (if ch : bool then
     modify (logger_log WARNING "Manager/device fault; entering fault state")
   else ret tt) ;;;
  modify (command_out_update
            (λ c, CommandOut.set_state_log "Manager fault"
                    (CommandOut.set_state STATE_FAULT c))).

(** [set_drive_command]: every CiA402 drive gets the manager's
    [drive_state] as its state command; the drive's other command
    attributes, which the manager copies from its own [command_in], are
    not modelled. *)
Definition set_drive_command (m : t) : t :=
  with_devices
    ((λ dev, if Device.cia402 dev then
               Device.set_command (CommandOut.drive_state (values (command_out m))) dev
             else dev) <$> devices m) m.

(** [set_command], lines 540-578: the external command and the new fault.
    [super().set_command] passes the external command [cmd_in_kwargs] into
    [command_in] and starts the cycle of [command_out], whose current
    values the manager then restores from [old_cmd_out]. *)
Definition set_command_external (cmd_in_kwargs : CommandIn.t) : M t unit :=
  old_cmd_out <- gets (λ m, values (command_out m)) ;;
  modify (λ m, with_command_in (advance (λ _, cmd_in_kwargs) (command_in m)) m) ;;;
  modify (λ m, with_command_out (advance (λ c, c) (command_out m)) m) ;;;
  modify (command_out_update (λ _, old_cmd_out)) ;;;
  cmd_in <- gets command_in ;;
  (* Check for new external command *)
  let state_int := CommandIn.state_cmd (values cmd_in) in
  effect_external_state_cmd <-
    (if rising_edge CommandIn.state_set cmd_in then
       (* state_set went high; log it *)
       match cmd_int_to_name_map !! state_int with
       | None =>
           modify (logger_log ERROR ("Invalid state command, '" +:+ pretty state_int
                                     +:+ "'")) ;;;
           ret false
       | Some state =>
           cur <- gets (λ m, CommandOut.state (values (command_out m))) ;;
           if N.eqb state_int cur then
             modify (logger_log INFO ("State command set:  '" +:+ state
                                      +:+ "' (unchanged)")) ;;;
             ret false
           else
             modify (logger_log INFO ("State command set:  '" +:+ state +:+ "'")) ;;;
             ret true
       end
     else ret false) ;;
  (* A new fault will override external command update *)
  new_fault_fb <- gets (λ m, FeedbackOut.fault (values (feedback_out m))
                             && changed FeedbackOut.fault (feedback_out m)) ;;
  effect_external_state_cmd <-
    (if new_fault_fb && negb (N.eqb (CommandOut.state old_cmd_out) STATE_FAULT)
     then
       set_command_handle_fault_fb ;;;
       if effect_external_state_cmd : bool then
         (* [cmd_out.get("fault")] *)
         cmd_out <- gets (λ m, values (command_out m)) ;;
         fault <- getitem "fault" (CommandOut.get "fault" cmd_out) ;;
         if CommandOut.truthy fault then
           let state := default "None" (cmd_int_to_name_map !! state_int) in
           modify (logger_log WARNING ("Ignoring new '" +:+ state
                                       +:+ "' command after fault")) ;;;
           ret false
         else ret true
       else ret false
     else ret effect_external_state_cmd) ;;
  if effect_external_state_cmd : bool then
    (* state_set went high; latch state_cmd from kwargs *)
    modify (command_out_update (CommandOut.set_state state_int)) ;;;
    ch <- gets (λ m, changed CommandOut.state (command_out m)) ;;
    if ch : bool then
      s <- state_str ;;
      modify (command_out_update
                (CommandOut.set_state_log ("External command '" +:+ s +:+ "'")))
    else ret tt
  else ret tt.

(** [set_command], lines 580-606: the event of this tick. *)
Definition set_command_event : M t unit :=
  ch <- gets (λ m, changed CommandOut.state (command_out m)) ;;
  if ch : bool then
    (* Received new command to stop/start/fault.  Try it by triggering the
       FSM event; a Canceled exception means it can't be done, so ignore
       it. *)
    cmd_int <- gets (λ m, CommandOut.state (values (command_out m))) ;;
    cmd_str <- state_str ;;
    modify (logger_log DEBUG ("New state command:  " +:+ cmd_str +:+ " ("
                              +:+ pretty cmd_int +:+ ")")) ;;;
    let event := cmd_str +:+ "_command" in
    msg <- gets (λ m, CommandOut.state_log (values (command_out m))) ;;
    try_except_else (trigger event msg)
      (λ e, match e with
            | Canceled _ =>
                Some (modify (logger_log WARNING ("Unable to honor " +:+ event
                                                  +:+ " command: " +:+ str_exn e)))
            | _ => None
            end)
      ret
  else
    next <- automatic_next_event ;;
    match next with
    | Some event =>
        (* Attempt automatic transition to next state *)
        st <- gets state ;;
        try_except_else
          (trigger event ("Automatic transition from " +:+ st +:+ " state"))
          (λ e, match e with Canceled _ => Some (ret tt) | _ => None end)
          (* State transition succeeded; fast-track the next update *)
          (λ _, modify (with_fast_track true))
    | None => ret tt
    end.

(** [set_command], lines 535-613, with its keywords [cmd_in_kwargs]. *)
Definition set_command (cmd_in_kwargs : CommandIn.t) : M t unit :=
  set_command_external cmd_in_kwargs ;;;
  set_command_event ;;;
  ch <- gets (λ m, changed CommandOut.state_log (command_out m)) ;;
  (if ch : bool then
     modify (λ m, logger_log DEBUG ("State:  "
                    +:+ CommandOut.state_log (values (command_out m))) m)
   else ret tt) ;;;
  (* Set drive command and return *)
  modify set_drive_command.

(** *** Execution *)

(** What one tick gets from outside the manager: the outcome of the
    hardware read and write (the exception raised, if any), the feedback
    every drive computes from what it read, and the external command.
    The drives' own [get_feedback] and [set_command] do not raise
    (specification, section 4.4: "the adapter never raises to the
    supervisor's control path"). *)
Record TickInput := mkTickInput {
  io_read : option exn;
  dev_get_feedback : Device.t → DevFeedbackOut.t;
  cmd_in_kwargs : CommandIn.t;
  io_write : option exn;
}.

(** [read]: the manager and the drives read their hardware. *)
Definition read (inp : TickInput) : M t unit :=
  match io_read inp with Some e => raise e | None => ret tt end.

(** [write]: the manager and the drives write their hardware. *)
Definition write (inp : TickInput) : M t unit :=
  match io_write inp with Some e => raise e | None => ret tt end.

Section Execution.
(** What [super().get_feedback()] leaves as the current values of the
    manager's [feedback_out]. *)
Variable reinit : FeedbackOut.t → FeedbackOut.t.

(** The [try] block of [read_update_write]. *)
Definition read_update_write_try (inp : TickInput) : M t unit :=
  read inp ;;;
  modify (get_feedback reinit (dev_get_feedback inp)) ;;;
  set_command (cmd_in_kwargs inp) ;;;
  write inp.

Definition read_update_write (inp : TickInput) : M t unit :=
  try_except_else (read_update_write_try inp)
    (λ e, match e with
          | KeyboardInterrupt msg =>
              Some (modify (logger_log INFO ("KeyboardInterrupt: " +:+ msg)) ;;;
                    modify (with_shutdown true))
          | _ => None
          end)
    ret.

(** The body of the [while] loop of [run_loop]. *)
Definition run_loop_body (inp : TickInput) : M t unit :=
  try_except_else (read_update_write inp)
    (λ e, if is_Exception e then
            (* Ignore other exceptions & enter fault mode in hopes we can
               recover *)
            Some (modify (logger_log ERROR "Ignoring unexpected exception; details:") ;;;
                  modify (λ m, foldl (λ m line, logger_log ERROR line m) m (format_exc e)) ;;;
                  modify (command_out_update
                            (λ c, CommandOut.set_state_log "Unexpected exception"
                                    (CommandOut.set_state STATE_FAULT c))))
          else None)
    ret ;;;
  ft <- gets fast_track ;;
  if ft : bool then
    (* This update included a state transition; skip the [sleep()] before
       the next update *)
    modify (with_fast_track false)
  else modify (λ m, with_slept (S (slept m)) m).

(** [while not self.shutdown], one input per turn; the loop is observed for
    as long as there are inputs. *)
Fixpoint run_loop_while (inputs : list TickInput) : M t unit :=
  match inputs with
  | [] => ret tt
  | inp :: inputs' =>
      sd <- gets shutdown ;;
      if sd : bool then ret tt
      else run_loop_body inp ;;; run_loop_while inputs'
  end.

Definition run_loop (inputs : list TickInput) : M t unit :=
  modify (with_fast_track false) ;;;
  modify (with_shutdown false) ;;;
  run_loop_while inputs.

End Execution.

End HWDeviceMgr.

(** ** The drive status checks of the older manager:
    [hal_402_device_mgr/hal_402_mgr.py] *)

Module Hal402MgrStatus.

(** [self.drives], in the order of the dictionary: each drive under its
    name, by the attribute [curr_state] that the checks read. *)
Definition Drives := list (string * string).

(** [all_drives_are_status]: the loop returns [False] at the first drive
    in another state. *)
Fixpoint all_drives_are_status (status : string) (drives : Drives) : bool :=
  match drives with
  | [] => true
  | (key, curr_state) :: drives' =>
      if negb (String.eqb curr_state status) then false
      else all_drives_are_status status drives'
  end.

(** [all_drives_are_not_status]: [False] at the first drive in the state
    [status]. *)
Fixpoint all_drives_are_not_status (status : string) (drives : Drives) : bool :=
  match drives with
  | [] => true
  | (key, curr_state) :: drives' =>
      if String.eqb curr_state status then false
      else all_drives_are_not_status status drives'
  end.

(** [one_drive_has_status]: [True] at the first drive in the state
    [status]. *)
Fixpoint one_drive_has_status (status : string) (drives : Drives) : bool :=
  match drives with
  | [] => false
  | (key, curr_state) :: drives' =>
      if String.eqb curr_state status then true
      else one_drive_has_status status drives'
  end.

End Hal402MgrStatus.

(** * The vocabulary of the properties *)

Import HWDeviceMgr.

Section get_feedback_report.
Variable reinit : FeedbackOut.t → FeedbackOut.t.
Variable dev_fb : Device.t → DevFeedbackOut.t.

(** A drive reports a new fault: its [fault] is set and was not before. *)
Definition new_fault_of (dev : Device.t) : bool :=
  DevFeedbackOut.fault (dev_fb dev)
  && negb (DevFeedbackOut.fault (values (Device.feedback_out dev))).

(** The drives' part of [get_feedback]: the state of the loop after the
    last drive. *)
Definition fb_loop_end (m : t) : fb_loop :=
  foldl (get_feedback_dev dev_fb)
        (mk_fb_loop (advance reinit (feedback_out m)) [] false [] []) (devices m).

(** The [fault] that [get_feedback] reports. *)
Definition fault_fb (m : t) : bool :=
  if N.eqb (CommandOut.state (values (command_out m))) STATE_FAULT then true
  else if existsb new_fault_of (devices m) then true
  else FeedbackOut.fault (reinit (values (feedback_out m))).

(** The [fault_desc] that [get_feedback] reports. *)
Definition fault_desc_fb (m : t) : string :=
  if N.eqb (CommandOut.state (values (command_out m))) STATE_FAULT then
    FeedbackOut.fault_desc (values (feedback_out m))
  else if existsb new_fault_of (devices m) then
    merge_device_descriptions (l_fault_devs (fb_loop_end m))
  else FeedbackOut.fault_desc (reinit (values (feedback_out m))).

End get_feedback_report.

(** ** Scenarios *)

(** Modelled from the spec: sections 4.1 and 8, "advance() copies
    current→previous for every key" and "after advance():
    bundle.current == bundle.previous on all keys".  The class [Device] is
    not among the sources; by these sentences its [get_feedback], which
    starts the cycle of [feedback_out], leaves the current values as they
    are. *)
Definition keep_values : FeedbackOut.t → FeedbackOut.t := λ v, v.

(** Another behaviour that the missing class could have: the bundle
    starts every tick from its declared defaults.  What is proved for
    every [reinit] is also run under it. *)
Definition reset_to_defaults : FeedbackOut.t → FeedbackOut.t :=
  λ _, FeedbackOut.defaults.

(** A drive that reports the CiA-402 state [st] without a fault; it has
    reached its goal when [st] is the state it was last commanded. *)
Definition drive_at (st : string) (dev : Device.t) : DevFeedbackOut.t :=
  let reached := String.eqb st (Device.command_state dev) in
  DevFeedbackOut.mk st true reached
    (if reached then ""
     else "Waiting: at " +:+ st +:+ ", target " +:+ Device.command_state dev)
    false "" 0 0.

(** A drive in the CiA-402 state FAULT, with error code [0x7305]. *)
Definition drive_in_fault (dev : Device.t) : DevFeedbackOut.t :=
  DevFeedbackOut.mk "FAULT" true false "Waiting: at FAULT" true
    "Incremental sensor 1 fault" 0x0008 0x7305.

(** A drive that is not yet online. *)
Definition drive_offline (dev : Device.t) : DevFeedbackOut.t :=
  DevFeedbackOut.mk "NOT READY TO SWITCH ON" false false "Offline" false "" 0 0.

(** One CiA402 drive, before its first feedback. *)
Definition drive_a : Device.t :=
  Device.mk "0_1" "_" "drive_a" true
    (mkInterface (DevFeedbackOut.mk "NOT READY TO SWITCH ON" false false "Offline" false "" 0 0)
                 (DevFeedbackOut.mk "NOT READY TO SWITCH ON" false false "Offline" false "" 0 0))
    "SWITCH ON DISABLED".

Definition no_command : CommandIn.t := CommandIn.mk STATE_INIT false.

(** The operator sets [state_cmd] and raises [state_set]. *)
Definition command (state_cmd : N) : CommandIn.t := CommandIn.mk state_cmd true.

(** A tick without hardware errors. *)
Definition tick (fb : Device.t → DevFeedbackOut.t) (cmd : CommandIn.t) : TickInput :=
  mkTickInput None fb cmd None.

(** From power-up to [stop_complete]: the drive is at SWITCH ON DISABLED
    and the operator is silent. *)
Definition cold_init : list TickInput :=
  replicate 4 (tick (drive_at "SWITCH ON DISABLED") no_command).

(** The start sequence, after [cold_init]. *)
Definition start_sequence : list TickInput :=
  [ tick (drive_at "SWITCH ON DISABLED") (command STATE_START);
    tick (drive_at "SWITCHED ON") no_command;
    tick (drive_at "OPERATION ENABLED") no_command;
    tick (drive_at "OPERATION ENABLED") no_command ].

(** The manager after the ticks [inputs], starting from [init]. *)
Definition after (reinit : FeedbackOut.t → FeedbackOut.t) (devs : list Device.t)
    (inputs : list TickInput) : t :=
  (run_loop reinit inputs (init devs)).2.

(** The drive leaves OPERATION ENABLED for QUICK STOP ACTIVE, without a
    fault, one tick after the start sequence is complete. *)
Definition drive_drops_out : list TickInput :=
  cold_init ++ start_sequence ++ [tick (drive_at "QUICK STOP ACTIVE") no_command].

(** Every drive is at OPERATION ENABLED. *)
Definition all_drives_enabled (m : t) : Prop :=
  Forall (λ dev, DevFeedbackOut.state (values (Device.feedback_out dev))
                 = "OPERATION ENABLED")
         (devices m).

(** What [enabled] would promise if it spoke for the drives as well. *)
Definition enabled_promise (m : t) : Prop :=
  FeedbackOut.enabled (values (feedback_out m)) = true →
  CommandOut.state (values (command_out m)) = STATE_START
  ∧ FeedbackOut.goal_reached (values (feedback_out m)) = true
  ∧ FeedbackOut.fault (values (feedback_out m)) = false
  ∧ all_drives_enabled m.

(** An error device whose catalog knows the code [0x7305] only, and which
    reported that code on the previous tick; [code] is the error code it
    reads now. *)
Definition error_device (code : N) : ErrorDevice.t :=
  ErrorDevice.mk "drive_a"
    {[ 0x7305 := ErrorDevice.mkErrorInfo "Incremental sensor 1 fault"
                   "Check the encoder cable" ]}
    (mkInterface (ErrorDevice.mkFeedbackIn code) (ErrorDevice.mkFeedbackIn 0x7305))
    (mkInterface (ErrorDevice.mkFeedbackOut 0x7305 "Incremental sensor 1 fault"
                    "Check the encoder cable")
                 ErrorDevice.feedback_out_defaults)
    [(ERROR, "drive_a:  error code 29445:  Incremental sensor 1 fault")].

(** Every drive has the flag [key] set in its feedback. *)
Definition all_drives (key : DevFeedbackOut.t → bool) (m : t) : Prop :=
  Forall (λ dev, key (values (Device.feedback_out dev)) = true) (devices m).

(** The manager in [init_1], after two ticks of [cold_init]; its drive is
    online and at its goal. *)
Definition in_init_1 : t :=
  get_feedback reset_to_defaults (drive_at "SWITCH ON DISABLED")
    (after reset_to_defaults [drive_a] (take 1 cold_init)).

(** The message of the guard that keeps commands out of the init states. *)
Definition init_guard_msg (c src : string) : string :=
  "Ignoring " +:+ c +:+ " command in init state " +:+ src.

(** The manager after the guard has dropped the command [c]: the commanded
    state is back at [STATE_INIT], and the guard has logged its warning if
    that changed the commanded state. *)
Definition init_guard_rejected (c : string) (m : t) : t :=
  let m1 := command_out_update
              (λ co, CommandOut.set_state_log (init_guard_msg c (state m))
                       (CommandOut.set_state STATE_INIT co)) m in
  if changed CommandOut.state (command_out m1) then
    logger_log WARNING (init_guard_msg c (state m)) m1
  else m1.

(** The manager in [init_1] when the operator has just commanded START:
    the command is latched, its event not yet triggered. *)
Definition start_commanded_in_init_1 : t :=
  (set_command_external (command STATE_START) in_init_1).2.

(** ** Frames *)

(** The method [c] leaves the part [proj] of the manager as it was,
    whether it returns or raises. *)
Definition preserves {A B} (proj : t → B) (c : M t A) : Prop :=
  ∀ s, proj (c s).2 = proj s.

(** A part of the manager that none of the writes of [set_command]
    reaches. *)
Definition untouched {B} (proj : t → B) : Prop :=
  (∀ s v, proj (with_state v s) = proj s)
  ∧ (∀ s v, proj (with_command_out v s) = proj s)
  ∧ (∀ s v, proj (with_command_in v s) = proj s)
  ∧ (∀ s v, proj (with_logger v s) = proj s)
  ∧ (∀ s v, proj (with_fast_track v s) = proj s)
  ∧ (∀ s v, proj (with_devices v s) = proj s).

(** ** Ticks in the fault state *)

(** The commanded state is [STATE_FAULT] at the start of every tick of
    [inputs], the first of which starts in [m]. *)
Fixpoint in_fault_throughout (reinit : FeedbackOut.t → FeedbackOut.t)
    (inputs : list TickInput) (m : t) : Prop :=
  match inputs with
  | [] => True
  | inp :: inputs' =>
      CommandOut.state (values (command_out m)) = STATE_FAULT
      ∧ in_fault_throughout reinit inputs' (run_loop_body reinit inp m).2
  end.

(** Scenario S3 of the specification: the drive reports a fault while the
    manager is enabled.  [fault_entered] is the manager at the end of the
    tick that takes it into [STATE_FAULT]. *)
Definition fault_entered : t :=
  after reset_to_defaults [drive_a]
    (cold_init ++ start_sequence ++ [tick drive_in_fault no_command]).

(** The manager in [stop_complete], with the feedback of a tick in which
    the drive newly reports a fault. *)
Definition fault_in_stop_complete : t :=
  get_feedback reset_to_defaults drive_in_fault
    (after reset_to_defaults [drive_a] cold_init).

(** A tick whose hardware read raises [e]. *)
Definition read_raises (e : exn) : TickInput :=
  mkTickInput (Some e) (drive_at "SWITCH ON DISABLED") no_command None.




(** ** Merged descriptions *)

(** One turn of the loop of [merge_device_descriptions], and the string of
    one group. *)
Definition merge_step (rev : list (string * list string)) (x : string * string) :=
  let '(dev, desc) := x in
  if String.eqb desc "" then rev else setdefault_append desc dev rev.

Definition merge_format (x : string * list string) : string :=
  let '(desc, dev_list) := x in desc +:+ " (" +:+ join "," dev_list +:+ ")".

(** ** The drives in the feedback of one tick *)

Section get_feedback_drives.
Variable dev_fb : Device.t → DevFeedbackOut.t.


(** [device:description] of the drives that report a fault, in the order
    of the drives. *)
Definition fault_devs_of (devs : list Device.t) : list (string * string) :=
  (λ dev, (Device.name dev, DevFeedbackOut.fault_desc (dev_fb dev)))
    <$> List.filter (λ dev, DevFeedbackOut.fault (dev_fb dev)) devs.

(** [device:reason] of the drives that have not reached their goal. *)
Definition waiting_devs_of (devs : list Device.t) : list (string * string) :=
  (λ dev, (Device.name dev, DevFeedbackOut.goal_reason (dev_fb dev)))
    <$> List.filter (λ dev, negb (DevFeedbackOut.goal_reached (dev_fb dev))) devs.

End get_feedback_drives.

(** ** Commands *)

(** The state that the event of a command enters, the number of the
    command and the CiA-402 state it asks of the drives. *)
Definition command_entry (c : string) : option (string * N * string) :=
  if String.eqb c "start" then Some ("start_1", STATE_START, "SWITCHED ON")
  else if String.eqb c "stop" then Some ("stop_1", STATE_STOP, "SWITCH ON DISABLED")
  else if String.eqb c "fault" then Some ("fault_1", STATE_FAULT, "FAULT")
  else None.

(** The manager after [super().set_command]: the external command is in
    [command_in], and [command_out] starts its cycle with the values it
    had. *)
Definition command_taken (kw : CommandIn.t) (m : t) : t :=
  with_command_out (mkInterface (values (command_out m)) (values (command_out m)))
    (with_command_in (mkInterface kw (values (command_in m))) m).

(** The feedback has a new fault. *)
Definition new_fault_fb (m : t) : bool :=
  FeedbackOut.fault (values (feedback_out m)) && changed FeedbackOut.fault (feedback_out m).

(** A part of the manager that nothing in [set_command] writes before
    [set_drive_command]. *)
Definition untouched_before_drives {B} (proj : t → B) : Prop :=
  (∀ s v, proj (with_state v s) = proj s)
  ∧ (∀ s v, proj (with_command_out v s) = proj s)
  ∧ (∀ s v, proj (with_command_in v s) = proj s)
  ∧ (∀ s v, proj (with_logger v s) = proj s)
  ∧ (∀ s v, proj (with_fast_track v s) = proj s).

(** What [set_drive_command] makes of a drive. *)
Definition drive_commanded (drive_state : string) (dev : Device.t) : Device.t :=
  if Device.cia402 dev then Device.set_command drive_state dev else dev.

(** ** The state machine and the command, consistent *)

(** The states in which a command is complete. *)
Definition is_complete (s : string) : bool :=
  String.eqb s "init_complete" || String.eqb s "fault_complete"
  || String.eqb s "start_complete" || String.eqb s "stop_complete".

(** The CiA-402 state that the drives are asked for in each state of the
    state machine: the one that the last [on_enter_*_1] or
    [on_enter_start_2] has set. *)
Definition drive_state_of (s : string) : string :=
  if String.eqb s "fault_1" || String.eqb s "fault_complete" then "FAULT"
  else if String.eqb s "start_1" then "SWITCHED ON"
  else if String.eqb s "start_2" || String.eqb s "start_complete" then "OPERATION ENABLED"
  else "SWITCH ON DISABLED".

(** The events whose guard is [fsm_check_command]. *)
Definition is_command_event (ev : string) : bool :=
  String.eqb ev "init_command" || String.eqb ev "fault_command"
  || String.eqb ev "start_command" || String.eqb ev "stop_command".

(** The states of [GSM]: the initial state and the states that its events
    lead to. *)
Definition GSM_states : list string := "init_command" :: GSM_events.*2.

(** The commanded state has a name, the state machine is in one of the
    states of [GSM], [command_complete] says whether that state is a
    [*_complete] state, and [drive_state] is the one of that state. *)
Definition fsm_consistent (m : t) : Prop :=
  is_Some (cmd_int_to_name_map !! CommandOut.state (values (command_out m)))
  ∧ state m ∈ GSM_states
  ∧ CommandOut.command_complete (values (command_out m)) = is_complete (state m)
  ∧ CommandOut.drive_state (values (command_out m)) = drive_state_of (state m).

(** A complete START command has gone through the whole start
    sequence. *)
Definition start_completed (m : t) : Prop :=
  CommandOut.state (values (command_out m)) = STATE_START →
  CommandOut.command_complete (values (command_out m)) = true →
  state m = "start_complete".

Definition consistent (m : t) : Prop := fsm_consistent m ∧ start_completed m.

(** What [fsm_check_command] does to the command; [b] is its verdict. *)
Definition checked (e : Event.t) (b : bool) (m m' : t) : Prop :=
  if b then
    CommandOut.command_complete (values (command_out m')) = false
    ∧ cmd_name_to_int_map !! fsm_command_from_event e
      = Some (CommandOut.state (values (command_out m')))
  else
    CommandOut.command_complete (values (command_out m'))
    = CommandOut.command_complete (values (command_out m))
    ∧ (CommandOut.state (values (command_out m')) = STATE_INIT
       ∨ CommandOut.state (values (command_out m'))
         = CommandOut.state (values (command_out m))
         ∧ startswith (Event.src e) (fsm_command_from_event e) = true).

(** Entering the state [dst] of the event: the part of [trigger] after the
    guard. *)
Definition enter (e : Event.t) : M t unit :=
  modify (with_state (Event.dst e)) ;;;
  e' <- on_enter e ;;
  on_change_state e'.

(** The outcome of a [trigger] that [set_command] goes on after: a return,
    or the [Canceled] that it catches. *)
Definition handled (res : result unit) : Prop :=
  ∀ ex, res = Raise ex → ∃ msg, ex = Canceled msg.

(** ** More scenarios *)

(** The manager in [stop_complete] after [cold_init], with the feedback of
    the next tick. *)
Definition stopped : t :=
  get_feedback reset_to_defaults (drive_at "SWITCH ON DISABLED")
    (after reset_to_defaults [drive_a] cold_init).

(** The manager in [init_complete], in [stop_1] and in [start_1], each with
    the feedback of the next tick, in which the drive has reached the
    state it was asked for. *)
Definition in_init_complete : t :=
  get_feedback reset_to_defaults (drive_at "SWITCH ON DISABLED")
    (after reset_to_defaults [drive_a] (take 2 cold_init)).

Definition in_stop_1 : t :=
  get_feedback reset_to_defaults (drive_at "SWITCH ON DISABLED")
    (after reset_to_defaults [drive_a] (take 3 cold_init)).

Definition in_start_1 : t :=
  get_feedback reset_to_defaults (drive_at "SWITCHED ON")
    (after reset_to_defaults [drive_a] (cold_init ++ take 1 start_sequence)).

(** The same managers once [set_command] has taken an external command
    that does not raise [state_set]. *)
Definition at_rest : t := (set_command_external no_command stopped).2.

Definition init_done : t := (set_command_external no_command in_init_complete).2.

(** ** Drives in FAULT *)





(** * Properties *)

(** ** The feedback of one tick *)

Section get_feedback_facts.
Variable reinit : FeedbackOut.t → FeedbackOut.t.
Variable dev_fb : Device.t → DevFeedbackOut.t.

Lemma get_feedback_dev_values_old l dev :
  values_old (l_mgr_fb_out (get_feedback_dev dev_fb l dev))
  = values_old (l_mgr_fb_out l).
Proof. reflexivity. Qed.

Lemma fb_loop_values_old devs l :
  values_old (l_mgr_fb_out (foldl (get_feedback_dev dev_fb) l devs))
  = values_old (l_mgr_fb_out l).
Proof.
  revert l. induction devs as [|dev devs IH]; intros l; simpl; [done|].
  by rewrite IH.
Qed.

Lemma get_feedback_dev_new_fault l dev :
  l_new_fault (get_feedback_dev dev_fb l dev) = l_new_fault l || new_fault_of dev_fb dev.
Proof.
  unfold get_feedback_dev, new_fault_of, changed, advance. simpl.
  destruct (DevFeedbackOut.fault (dev_fb dev)) eqn:Hf; simpl.
  - destruct (DevFeedbackOut.fault (values (Device.feedback_out dev))) eqn:Ho;
      simpl; destruct (l_new_fault l); simpl; try done.
    all: case_bool_decide; done.
  - by rewrite orb_false_r.
Qed.

Lemma fb_loop_new_fault devs l :
  l_new_fault (foldl (get_feedback_dev dev_fb) l devs)
  = l_new_fault l || existsb (new_fault_of dev_fb) devs.
Proof.
  revert l. induction devs as [|dev devs IH]; intros l; simpl.
  - by rewrite orb_false_r.
  - rewrite IH, get_feedback_dev_new_fault. by rewrite orb_assoc.
Qed.

(** [get_feedback] touches the manager's [feedback_out], the drives and
    the logger, and nothing else; what it reports follows the command. *)
Lemma get_feedback_spec (m : t) :
  let m' := get_feedback reinit dev_fb m in
  let fb := values (feedback_out m') in
  state m' = state m
  ∧ command_in m' = command_in m
  ∧ command_out m' = command_out m
  ∧ shutdown m' = shutdown m
  ∧ fast_track m' = fast_track m
  ∧ slept m' = slept m
  ∧ values_old (feedback_out m') = values (feedback_out m)
  ∧ FeedbackOut.goal_reached fb = CommandOut.command_complete (values (command_out m))
  ∧ FeedbackOut.fault fb = fault_fb reinit dev_fb m
  ∧ FeedbackOut.fault_desc fb = fault_desc_fb reinit dev_fb m
  ∧ FeedbackOut.enabled fb
    = (N.eqb (CommandOut.state (values (command_out m))) STATE_START
       && FeedbackOut.goal_reached fb && negb (FeedbackOut.fault fb)).
Proof.
  unfold get_feedback, fault_fb, fault_desc_fb.
  fold (fb_loop_end reinit dev_fb m).
  assert (Hold : values_old (l_mgr_fb_out (fb_loop_end reinit dev_fb m)) = values (feedback_out m))
    by (unfold fb_loop_end; by rewrite fb_loop_values_old).
  assert (Hnf : l_new_fault (fb_loop_end reinit dev_fb m) = existsb (new_fault_of dev_fb) (devices m))
    by (unfold fb_loop_end; by rewrite fb_loop_new_fault).
  rewrite Hold, Hnf.
  destruct (CommandOut.command_complete (values (command_out m))); simpl;
    destruct (N.eqb (CommandOut.state (values (command_out m))) STATE_FAULT);
    destruct (existsb (new_fault_of dev_fb) (devices m)); simpl;
    repeat match goal with
      | |- context [if ?b then _ else _] => destruct b; simpl
      end;
    rewrite ?Hold; done.
Qed.

End get_feedback_facts.

(** ** The scenarios of the specification, run on the model *)

(** The format of merged descriptions, section 4.6 (e). *)
Example merge_device_descriptions_format :
  merge_device_descriptions
    [("dev_a", "overheat"); ("dev_b", "overheat"); ("dev_c", "encoder"); ("dev_d", "")]
  = "overheat (dev_a,dev_b); encoder (dev_c)".
Proof. vm_compute. reflexivity. Qed.

(** S1, cold init to stop: the stop command is issued on entry to
    [init_complete], and the manager then walks to [stop_complete]. *)
Example cold_init_to_stop :
  let m2 := after reset_to_defaults [drive_a] (take 2 cold_init) in
  let m4 := after reset_to_defaults [drive_a] cold_init in
  (state m2, values (command_out m2))
  = ("init_complete",
     CommandOut.mk STATE_STOP "Automatic 'stop' command at init complete" true false
       "SWITCH ON DISABLED")
  ∧ state m4 = "stop_complete"
  ∧ CommandOut.command_complete (values (command_out m4)) = true.
Proof. vm_compute. done. Qed.

(** S2, the start sequence: SWITCHED ON first, then OPERATION ENABLED with
    [reset] set, then [start_complete] with [reset] clear and, on the next
    feedback, [enabled]. *)
Example start_sequence_enables :
  let at_tick k := after reset_to_defaults [drive_a] (cold_init ++ take k start_sequence) in
  (λ m, (state m, CommandOut.reset (values (command_out m)),
         CommandOut.drive_state (values (command_out m)),
         FeedbackOut.enabled (values (feedback_out m))))
    <$> [at_tick 1%nat; at_tick 2%nat; at_tick 3%nat; at_tick 4%nat]
  = [ ("start_1", false, "SWITCHED ON", false);
      ("start_2", true, "OPERATION ENABLED", false);
      ("start_complete", false, "OPERATION ENABLED", false);
      ("start_complete", false, "OPERATION ENABLED", true) ].
Proof. vm_compute. reflexivity. Qed.

(** S3, a fault in operation: the manager enters [fault_1] on the tick of
    the fault, with the drive's description under the drive's name. *)
Example fault_in_operation :
  state fault_entered = "fault_1"
  ∧ values (command_out fault_entered)
    = CommandOut.mk STATE_FAULT "Manager fault" false false "FAULT"
  ∧ FeedbackOut.fault (values (feedback_out fault_entered)) = true
  ∧ FeedbackOut.fault_desc (values (feedback_out fault_entered))
    = "Incremental sensor 1 fault (drive_a)"
  ∧ FeedbackOut.enabled (values (feedback_out fault_entered)) = false.
Proof. vm_compute. done. Qed.

(** ** The feedback flags *)

(** C7.  The [goal_reached] that [get_feedback] reports is the command's
    [command_complete]: false when that is false, true when it is true,
    whatever the drives report and however many of them have reached
    their goal. *)
Theorem goal_reached_is_command_complete
    (reinit : FeedbackOut.t → FeedbackOut.t)
    (dev_fb : Device.t → DevFeedbackOut.t) (m : t) :
  FeedbackOut.goal_reached (values (feedback_out (get_feedback reinit dev_fb m)))
  = CommandOut.command_complete (values (command_out m)).
Proof. apply get_feedback_spec. Qed.

(** C1, as the code has it.  When [get_feedback] reports [enabled], the
    commanded state is [STATE_START], the command is complete, and the
    feedback has [goal_reached] set and [fault] clear. *)
Theorem enabled_implies_start_goal_no_fault
    (reinit : FeedbackOut.t → FeedbackOut.t)
    (dev_fb : Device.t → DevFeedbackOut.t) (m : t) :
  let m' := get_feedback reinit dev_fb m in
  FeedbackOut.enabled (values (feedback_out m')) = true →
  CommandOut.state (values (command_out m')) = STATE_START
  ∧ CommandOut.command_complete (values (command_out m')) = true
  ∧ FeedbackOut.goal_reached (values (feedback_out m')) = true
  ∧ FeedbackOut.fault (values (feedback_out m')) = false.
Proof.
  intros m'.
  destruct (get_feedback_spec reinit dev_fb m)
    as (_ & _ & Hco & _ & _ & _ & _ & Hg & _ & _ & He).
  fold m' in Hco, Hg, He. rewrite He, Hg, Hco.
  intros H. apply andb_prop in H as [H Hf]. apply andb_prop in H as [Hs Hgr].
  apply N.eqb_eq in Hs. apply negb_true_iff in Hf. done.
Qed.

Lemma enabled_implies_start_goal_no_fault_witness :
  let m := after reset_to_defaults [drive_a] (cold_init ++ take 3 start_sequence) in
  let m' := get_feedback reset_to_defaults (drive_at "OPERATION ENABLED") m in
  FeedbackOut.enabled (values (feedback_out m')) = true
  ∧ CommandOut.state (values (command_out m')) = STATE_START
  ∧ CommandOut.command_complete (values (command_out m')) = true
  ∧ FeedbackOut.goal_reached (values (feedback_out m')) = true
  ∧ FeedbackOut.fault (values (feedback_out m')) = false.
Proof.
  split; [vm_compute; reflexivity|].
  apply (enabled_implies_start_goal_no_fault reset_to_defaults
           (drive_at "OPERATION ENABLED")).
  vm_compute; reflexivity.
Defined.

(** C1, as stated, fails.  After the start sequence the drive leaves
    OPERATION ENABLED for QUICK STOP ACTIVE without a fault; the command
    is still complete, so the manager still reports [enabled]. *)
Lemma enabled_promise_broken :
  ¬ enabled_promise (after reset_to_defaults [drive_a] drive_drops_out)
  ∧ ¬ enabled_promise (after keep_values [drive_a] drive_drops_out).
Proof.
  assert (Hne : ∀ m,
            FeedbackOut.enabled (values (feedback_out m)) = true →
            (DevFeedbackOut.state ∘ values ∘ Device.feedback_out) <$> devices m
            = ["QUICK STOP ACTIVE"] →
            ¬ enabled_promise m).
  { intros m He Hd H. destruct (H He) as (_ & _ & _ & Hall).
    unfold all_drives_enabled in Hall.
    destruct (devices m) as [|dev devs]; [discriminate Hd|].
    apply Forall_cons_1 in Hall as [Hst _].
    simpl in Hd. rewrite Hst in Hd. discriminate Hd. }
  split; apply Hne; vm_compute; reflexivity.
Qed.

(** X30.  Whatever the missing base class leaves in the bundle: on a
    tick on which some drive newly reports a fault (its [fault] is set
    and was clear in its previous feedback), and on every tick on which
    the commanded state is [STATE_FAULT], [get_feedback] reports [fault]
    on that same tick. *)
Theorem new_drive_fault_is_reported
    (reinit : FeedbackOut.t → FeedbackOut.t)
    (dev_fb : Device.t → DevFeedbackOut.t) (m : t) :
  CommandOut.state (values (command_out m)) = STATE_FAULT
  ∨ (∃ dev, dev ∈ devices m
            ∧ DevFeedbackOut.fault (dev_fb dev) = true
            ∧ DevFeedbackOut.fault (values (Device.feedback_out dev)) = false) →
  FeedbackOut.fault (values (feedback_out (get_feedback reinit dev_fb m))) = true.
Proof.
  intros H.
  destruct (get_feedback_spec reinit dev_fb m) as (_&_&_&_&_&_&_&_&Hf&_).
  rewrite Hf. unfold fault_fb.
  destruct H as [Hs|(dev & Hin & Hnew & Hold)]; [by rewrite Hs|].
  destruct (N.eqb _ _); [done|].
  assert (He : existsb (new_fault_of dev_fb) (devices m) = true).
  { apply existsb_exists. exists dev. split; [by apply list_elem_of_In|].
    unfold new_fault_of. by rewrite Hnew, Hold. }
  by rewrite He.
Qed.

Lemma new_drive_fault_is_reported_witness :
  let m := after reset_to_defaults [drive_a] (cold_init ++ start_sequence) in
  FeedbackOut.fault (values (feedback_out m)) = false
  ∧ FeedbackOut.fault
      (values (feedback_out (get_feedback reset_to_defaults drive_in_fault m)))
    = true.
Proof.
  intros m. split; [vm_compute; reflexivity|].
  apply (new_drive_fault_is_reported reset_to_defaults drive_in_fault m). right.
  exists (hd drive_a (devices m)). split; [|split].
  - apply list_elem_of_In. vm_compute. left. reflexivity.
  - reflexivity.
  - vm_compute. reflexivity.
Defined.

(** ** Error devices *)

Lemma error_info_unknown (errs : gmap N ErrorDevice.ErrorInfo) (code : N) :
  errs !! code = None →
  ErrorDevice.error_info errs code
  = ErrorDevice.mkErrorInfo ("Unknown error code " +:+ pretty code)
      "Contact technical support".
Proof. intros H. unfold ErrorDevice.error_info. by rewrite H. Qed.

(** [pretty] renders in decimal: the code [0xDEAD] of the specification's
    scenario S6. *)
Example error_info_57005 :
  ErrorDevice.error_info ∅ 0xDEAD
  = ErrorDevice.mkErrorInfo "Unknown error code 57005" "Contact technical support".
Proof. vm_compute. reflexivity. Qed.

(** The older manager answers an unknown code with another entry; the
    devices' feedback does not go through it. *)
Lemma get_error_info_unknown (errs : gmap string (gmap N Hal402Mgr.ErrorInfo))
    (devicetype : string) (code : N) :
  errs !! devicetype ≫= (λ e, e !! code) = None →
  Hal402Mgr.get_error_info errs devicetype code
  = Hal402Mgr.mkErrorInfo "This error is an unknown error."
      "Please contact your hardware support department.".
Proof. intros H. unfold Hal402Mgr.get_error_info. by rewrite H. Qed.

(** C4.  For an error code that the model's catalog lacks, the lookup of
    [get_feedback] yields the entry with description "Unknown error code
    <code>", the code in decimal, and advice "Contact technical support";
    when the device reads that code (the lookup is made for a non-zero
    code), these are the description and the advice that [get_feedback]
    reports. *)
Theorem unknown_error_code_entry
    (reinit : ErrorDevice.FeedbackOut → ErrorDevice.FeedbackOut)
    (d : ErrorDevice.t) (code : N) :
  ErrorDevice.error_descriptions d !! code = None →
  ErrorDevice.error_info (ErrorDevice.error_descriptions d) code
  = ErrorDevice.mkErrorInfo ("Unknown error code " +:+ pretty code)
      "Contact technical support"
  ∧ (ErrorDevice.in_error_code (values (ErrorDevice.feedback_in d)) = code →
     code ≠ 0 →
     values (ErrorDevice.feedback_out (ErrorDevice.get_feedback reinit d))
     = ErrorDevice.mkFeedbackOut code ("Unknown error code " +:+ pretty code)
         "Contact technical support").
Proof.
  intros Hnone. split; [by apply error_info_unknown|].
  intros Hcode Hnz. unfold ErrorDevice.get_feedback. simpl.
  rewrite Hcode. rewrite (proj2 (N.eqb_neq _ _)) by done.
  rewrite error_info_unknown by done. simpl.
  by destruct (changed _ _).
Qed.

Lemma unknown_error_code_entry_witness :
  ErrorDevice.error_info (ErrorDevice.error_descriptions (error_device 0xDEAD)) 0xDEAD
  = ErrorDevice.mkErrorInfo "Unknown error code 57005" "Contact technical support"
  ∧ values (ErrorDevice.feedback_out
              (ErrorDevice.get_feedback (λ v, v) (error_device 0xDEAD)))
    = ErrorDevice.mkFeedbackOut 0xDEAD "Unknown error code 57005"
        "Contact technical support".
Proof.
  destruct (unknown_error_code_entry (λ v, v) (error_device 0xDEAD) 0xDEAD)
    as [H1 H2]; [vm_compute; reflexivity|].
  split; [exact H1|].
  apply H2; [reflexivity|discriminate].
Defined.

(** C10.  When the error code read is zero, [get_feedback] sets
    [error_code], [description] and [advice] to their no-error defaults
    and logs nothing, whatever the device reported on the previous tick. *)
Theorem no_error_resets_feedback
    (reinit : ErrorDevice.FeedbackOut → ErrorDevice.FeedbackOut)
    (d : ErrorDevice.t) :
  ErrorDevice.in_error_code (values (ErrorDevice.feedback_in d)) = 0 →
  let d' := ErrorDevice.get_feedback reinit d in
  values (ErrorDevice.feedback_out d') = ErrorDevice.mkFeedbackOut 0 "No error" "No error"
  ∧ values_old (ErrorDevice.feedback_out d') = values (ErrorDevice.feedback_out d)
  ∧ ErrorDevice.logger d' = ErrorDevice.logger d.
Proof.
  intros H. unfold ErrorDevice.get_feedback. simpl. rewrite H. done.
Qed.

Lemma no_error_resets_feedback_witness :
  let d' := ErrorDevice.get_feedback (λ v, v) (error_device 0) in
  ErrorDevice.error_code (values (ErrorDevice.feedback_out (error_device 0))) = 0x7305
  ∧ values (ErrorDevice.feedback_out d') = ErrorDevice.mkFeedbackOut 0 "No error" "No error"
  ∧ ErrorDevice.logger d' = ErrorDevice.logger (error_device 0).
Proof.
  split; [reflexivity|].
  destruct (no_error_resets_feedback (λ v, v) (error_device 0)) as (H1 & _ & H3);
    [reflexivity|].
  split; [exact H1|exact H3].
Defined.

(** ** The state machine *)

Lemma GSM_dst_init_complete (src : string) :
  GSM_dst "init_complete" src
  = if String.eqb src "init_1" then Some "init_complete" else None.
Proof.
  unfold GSM_dst, GSM_events. cbn.
  destruct (String.eqb src "init_1"); reflexivity.
Qed.

(** [query_devices(key=False)] is empty when every drive has [key] set. *)
Lemma query_devices_false_nil (key : DevFeedbackOut.t → bool) (m : t) :
  truth (query_devices false key false m) = false ↔ all_drives key m.
Proof.
  unfold query_devices, all_drives.
  induction (devices m) as [|dev devs IH]; simpl.
  - split; [constructor|done].
  - rewrite ?orb_true_r, ?andb_true_r.
    destruct (key (values (Device.feedback_out dev))) eqn:Hk; simpl.
    + rewrite IH. split; [by constructor|].
      intros HF. by apply Forall_cons_1 in HF as [_ HF].
    + split; [done|]. intros HF. apply Forall_cons_1 in HF as [HF _]. congruence.
Qed.

(** The [init_complete] event does fire from [init_1] once every drive is
    online and at its goal. *)
Lemma init_complete_fires (m : t) (msg : string) :
  state m = "init_1" →
  all_drives DevFeedbackOut.oper m →
  all_drives DevFeedbackOut.goal_reached m →
  (trigger "init_complete" msg m).1 = Ok tt.
Proof.
  intros Hs Ho Hg. apply query_devices_false_nil in Ho, Hg.
  unfold trigger, bind, gets. rewrite GSM_dst_init_complete, Hs. cbn.
  unfold fsm_check_devices_online. rewrite Ho. cbn.
  unfold fsm_check_drive_goal_state. rewrite Hg. cbn.
  by destruct (changed _ _).
Qed.

(** C9.  When the [init_complete] event fires, the state machine was in
    [init_1], every drive was operational and every drive had reached its
    goal; the machine is then in [init_complete], the command is marked
    complete, and the stop command is issued: the commanded state is
    [STATE_STOP] and [state_log] is "Automatic 'stop' command at init
    complete". *)
Theorem init_complete_transition (m m' : t) (msg : string) :
  trigger "init_complete" msg m = (Ok tt, m') →
  state m = "init_1"
  ∧ all_drives DevFeedbackOut.oper m
  ∧ all_drives DevFeedbackOut.goal_reached m
  ∧ state m' = "init_complete"
  ∧ CommandOut.command_complete (values (command_out m')) = true
  ∧ CommandOut.state (values (command_out m')) = STATE_STOP
  ∧ CommandOut.state_log (values (command_out m'))
    = "Automatic 'stop' command at init complete".
Proof.
  unfold trigger, bind, gets. rewrite GSM_dst_init_complete.
  destruct (String.eqb_spec (state m) "init_1") as [Hs|Hs]; [|done].
  cbn. unfold fsm_check_devices_online, fsm_check_drive_goal_state.
  destruct (truth (query_devices false DevFeedbackOut.oper false m)) eqn:Ho;
    cbn; [done|].
  destruct (truth (query_devices false DevFeedbackOut.goal_reached false m)) eqn:Hg;
    cbn; [done|].
  apply query_devices_false_nil in Ho, Hg.
  rewrite Hs. cbn.
  destruct (changed _ _); intros [= <-]; done.
Qed.

Lemma init_complete_transition_witness :
  let m' := (trigger "init_complete" "Automatic transition from init_1 state"
               in_init_1).2 in
  state in_init_1 = "init_1"
  ∧ state m' = "init_complete"
  ∧ CommandOut.command_complete (values (command_out m')) = true
  ∧ CommandOut.state (values (command_out m')) = STATE_STOP
  ∧ CommandOut.state_log (values (command_out m'))
    = "Automatic 'stop' command at init complete".
Proof.
  intros m'.
  destruct (init_complete_transition in_init_1 m'
              "Automatic transition from init_1 state")
    as (H1 & _ & _ & H2 & H3 & H4 & H5); [vm_compute; reflexivity|].
  exact (conj H1 (conj H2 (conj H3 (conj H4 H5)))).
Defined.

(** ** Commands during init *)

(** The two name maps, as [dir(self)] makes them. *)
Lemma cmd_int_to_name_map_eq :
  cmd_int_to_name_map = <[0:="init"]> (<[1:="stop"]> (<[2:="start"]> (<[4:="fault"]> ∅))).
Proof. vm_compute. reflexivity. Qed.

Lemma cmd_int_to_name_cases n c :
  cmd_int_to_name_map !! n = Some c →
  (n = 0 ∧ c = "init") ∨ (n = 1 ∧ c = "stop") ∨ (n = 2 ∧ c = "start") ∨ (n = 4 ∧ c = "fault").
Proof.
  rewrite cmd_int_to_name_map_eq. 
  rewrite !lookup_insert. repeat case_decide; subst; rewrite ?lookup_empty; naive_solver.
Qed.

Lemma cmd_name_to_int_map_eq :
  cmd_name_to_int_map = <["init":=0]> (<["stop":=1]> (<["start":=2]> (<["fault":=4]> ∅))).
Proof. vm_compute. reflexivity. Qed.

(** The guard in an init state: the command is dropped. *)
Lemma fsm_check_command_init e m c n :
  fsm_command_from_event e = c →
  cmd_name_to_int_map !! c = Some n →
  n ≠ STATE_INIT →
  Event.src e = state m →
  startswith (state m) "init" = true →
  state m ≠ "init_complete" →
  fsm_check_command e m = (Ok (false, e), init_guard_rejected c m).
Proof.
  intros Hc Hn Hne Hsrc Hpre Hnc.
  unfold fsm_check_command, bind, getitem. rewrite Hc, Hn. unfold ret at 1.
  rewrite Hsrc, Hpre. 
  rewrite (proj2 (String.eqb_neq _ _) Hnc).
  rewrite (proj2 (N.eqb_neq _ _) Hne). cbn.
  unfold init_guard_rejected, init_guard_msg.
  destruct (changed _ _); reflexivity.
Qed.

(** The command events may fire in any state. *)
Lemma GSM_dst_command src :
  GSM_dst "start_command" src = Some "start_1"
  ∧ GSM_dst "stop_command" src = Some "stop_1"
  ∧ GSM_dst "fault_command" src = Some "fault_1".
Proof.
  unfold GSM_dst, GSM_events. cbn. by destruct (String.eqb src "*").
Qed.

(** A command other than INIT in an init state: the event is canceled. *)
Lemma trigger_command_init c m msg :
  c ∈ ["start"; "stop"; "fault"] →
  startswith (state m) "init" = true →
  state m ≠ "init_complete" →
  trigger (c +:+ "_command") msg m
  = (Raise (Canceled ("Cannot trigger event " +:+ c +:+ "_command because the onbefore"
                         +:+ c +:+ "_command handler returns False")), init_guard_rejected c m).
Proof.
  intros Hc Hpre Hnc.
  assert (Hcases : c = "start" ∨ c = "stop" ∨ c = "fault").
  { rewrite !elem_of_cons in Hc. rewrite elem_of_nil in Hc. tauto. }
  destruct (GSM_dst_command (state m)) as (H1 & H2 & H3).
  destruct Hcases as [Hx|[Hx|Hx]]; subst c.
  all: unfold trigger, bind, gets.
  1: change ("start" +:+ "_command") with "start_command".
  2: change ("stop" +:+ "_command") with "stop_command".
  3: change ("fault" +:+ "_command") with "fault_command".
  all: rewrite ?H1, ?H2, ?H3.
  all: unfold on_before; cbn [Event.event String.eqb Ascii.eqb Bool.eqb].
  all: unfold on_before_start_command, on_before_stop_command, on_before_fault_command, bind.
  all: erewrite fsm_check_command_init; [| reflexivity | by rewrite cmd_name_to_int_map_eq | done | reflexivity | done | done ].
  all: reflexivity.
Qed.

(** The map of a command other than INIT has no entry for an init state. *)
Lemma fsm_next_state_map_command c s :
  c ∈ ["start"; "stop"; "fault"] →
  startswith s "init" = true →
  ∃ sm, fsm_next_state_map !! c = Some sm ∧ sm !! s = None.
Proof.
  intros Hc Hpre.
  assert (Hcases : c = "start" ∨ c = "stop" ∨ c = "fault").
  { rewrite !elem_of_cons in Hc. rewrite elem_of_nil in Hc. tauto. }
  destruct Hcases as [Hx|[Hx|Hx]]; subst c.
  - exists (<["start_1" := Some "start_2"]> (<["start_2" := Some "start_complete"]>
              (<["start_complete" := None]> ∅))).
    split; [vm_compute; reflexivity|].
    rewrite !lookup_insert. repeat case_decide; subst; try discriminate Hpre.
    apply lookup_empty.
  - exists (<["stop_1" := Some "stop_complete"]> (<["stop_complete" := None]> ∅)).
    split; [vm_compute; reflexivity|].
    rewrite !lookup_insert. repeat case_decide; subst; try discriminate Hpre.
    apply lookup_empty.
  - exists (<["fault_1" := Some "fault_complete"]> (<["fault_complete" := None]> ∅)).
    split; [vm_compute; reflexivity|].
    rewrite !lookup_insert. repeat case_decide; subst; try discriminate Hpre.
    apply lookup_empty.
Qed.

Lemma state_str_run (m : t) (c : string) :
  cmd_int_to_name_map !! CommandOut.state (values (command_out m)) = Some c →
  state_str m = (Ok c, m).
Proof. intros H. unfold state_str, bind, gets, getitem. by rewrite H. Qed.

Lemma automatic_next_event_init (m : t) (c : string) :
  cmd_int_to_name_map !! CommandOut.state (values (command_out m)) = Some c →
  c ∈ ["start"; "stop"; "fault"] →
  startswith (state m) "init" = true →
  automatic_next_event m = (Ok (Some (c +:+ "_command")), m).
Proof.
  intros Hc Hin Hpre. unfold automatic_next_event, bind.
  rewrite (state_str_run m c Hc).
  destruct (fsm_next_state_map_command c (state m) Hin Hpre) as (sm & Hsm & Hnone).
  unfold getitem, gets. rewrite Hsm. unfold ret at 1. by rewrite Hnone.
Qed.

(** C6.  While the state machine is in an init state other than
    [init_complete] and the commanded state is not INIT, the event that
    [set_command] triggers, "<command>_command", is rejected by the guard:
    a warning is logged, the commanded state is left at [STATE_INIT], and
    the state machine stays where it is. *)
Theorem init_rejects_command (m : t) (c : string) :
  startswith (state m) "init" = true →
  state m ≠ "init_complete" →
  cmd_int_to_name_map !! CommandOut.state (values (command_out m)) = Some c →
  c ≠ "init" →
  ∃ m' lg msg,
    set_command_event m = (Ok tt, m')
    ∧ logger m' = (logger m ++ lg)%list ∧ (WARNING, msg) ∈ lg
    ∧ CommandOut.state (values (command_out m')) = STATE_INIT
    ∧ state m' = state m.
Proof.
  intros Hpre Hnc Hc Hni.
  assert (Hin : c ∈ ["start"; "stop"; "fault"] ∧ CommandOut.state (values (command_out m)) ≠ 0).
  { apply cmd_int_to_name_cases in Hc as [[Hn Hx]|[[Hn Hx]|[[Hn Hx]|[Hn Hx]]]];
      [done|..]; rewrite Hn, Hx; split; try done.
    - apply list_elem_of_further, list_elem_of_here.
    - apply list_elem_of_here.
    - do 2 apply list_elem_of_further. apply list_elem_of_here. }
  destruct Hin as [Hin Hn0].
  unfold set_command_event, bind, gets.
  destruct (changed CommandOut.state (command_out m)) eqn:Hch.
  - rewrite (state_str_run m c Hc). unfold modify at 1.
    unfold try_except_else. rewrite trigger_command_init; [|exact Hin|exact Hpre|exact Hnc].
    unfold init_guard_rejected.
    match goal with
    | |- context [if ?b then _ else _] => destruct b
    end.
    + eexists _, _, (init_guard_msg c (state m)). split; [reflexivity|].
      cbn. unfold log. rewrite <- !app_assoc. split; [reflexivity|].
      split; [|split; reflexivity].
      apply list_elem_of_further, list_elem_of_here.
    + eexists _, _, _. split; [reflexivity|].
      cbn. unfold log. rewrite <- !app_assoc. split; [reflexivity|].
      split; [|split; reflexivity].
      apply list_elem_of_further, list_elem_of_here.
  - rewrite (automatic_next_event_init m c Hc Hin Hpre).
    unfold try_except_else. rewrite trigger_command_init; [|exact Hin|exact Hpre|exact Hnc].
    unfold init_guard_rejected.
    assert (Hch' : changed CommandOut.state
       (command_out
          (command_out_update
             (λ co : CommandOut.t,
                CommandOut.set_state_log (init_guard_msg c (state m))
                  (CommandOut.set_state STATE_INIT co)) m)) = true).
    { unfold changed in *. cbn. apply bool_decide_eq_false in Hch.
      apply bool_decide_eq_true. intros Heq. apply Hch. intros Heq2. 
      apply Hn0. rewrite Heq2. symmetry. exact Heq. }
    rewrite Hch'.
    eexists _, [_], _. split; [reflexivity|]. cbn. unfold log. split; [reflexivity|].
    split; [|split; reflexivity].
    apply list_elem_of_here.
Qed.

Lemma init_rejects_command_witness :
  ∃ m' lg msg,
    set_command_event start_commanded_in_init_1 = (Ok tt, m')
    ∧ logger m' = (logger start_commanded_in_init_1 ++ lg)%list
    ∧ (WARNING, msg) ∈ lg
    ∧ CommandOut.state (values (command_out m')) = STATE_INIT
    ∧ state m' = state start_commanded_in_init_1.
Proof.
  apply (init_rejects_command start_commanded_in_init_1 "start").
  - vm_compute; reflexivity.
  - intros H; vm_compute in H; discriminate H.
  - vm_compute; reflexivity.
  - discriminate.
Defined.

(** Scenario S4 of the specification, through the whole tick: the
    operator commands START while the manager waits in [init_1]. *)
Example start_command_in_init_1 :
  let m := (run_loop_body reset_to_defaults
              (tick (drive_at "SWITCH ON DISABLED") (command STATE_START))
              (after reset_to_defaults [drive_a] (take 1 cold_init))).2 in
  state m = "init_1"
  ∧ CommandOut.state (values (command_out m)) = STATE_INIT
  ∧ logged WARNING (logger m)
    = ["Unable to honor start_command command: Cannot trigger event start_command because the onbeforestart_command handler returns False"].
Proof. vm_compute. done. Qed.

(** ** What a method leaves alone *)

Section Frame.
Context {B : Type} (proj : t → B).

Lemma preserves_ret {A} (a : A) : preserves proj (ret a).
Proof. done. Qed.

Lemma preserves_raise {A} (e : exn) : preserves proj (raise (A:=A) e).
Proof. done. Qed.

Lemma preserves_gets {A} (f : t → A) : preserves proj (gets f).
Proof. done. Qed.

Lemma preserves_getitem {A} (key : string) (o : option A) :
  preserves proj (getitem key o).
Proof. by destruct o. Qed.

Lemma preserves_modify (f : t → t) :
  (∀ s, proj (f s) = proj s) → preserves proj (modify f).
Proof. intros H s. apply H. Qed.

Lemma preserves_bind {A C} (c : M t A) (k : A → M t C) :
  preserves proj c → (∀ a, preserves proj (k a)) → preserves proj (bind c k).
Proof.
  intros Hc Hk s. unfold bind. specialize (Hc s).
  destruct (c s) as [[a|e] s']; simpl in *; [|done].
  by rewrite Hk.
Qed.

Lemma preserves_try {A C} (c : M t A) (handler : exn → option (M t C))
    (k : A → M t C) :
  preserves proj c →
  (∀ e, from_option (preserves proj) True (handler e)) →
  (∀ a, preserves proj (k a)) →
  preserves proj (try_except_else c handler k).
Proof.
  intros Hc Hh Hk s. unfold try_except_else. specialize (Hc s).
  destruct (c s) as [[a|e] s']; simpl in *; [by rewrite Hk|].
  specialize (Hh e). destruct (handler e) as [h|]; simpl in *; [|done].
  by rewrite Hh.
Qed.
End Frame.

Ltac frame_step :=
  lazymatch goal with
  | |- preserves _ (bind _ _) => apply preserves_bind; [|intros ?]
  | |- preserves _ (ret _) => apply preserves_ret
  | |- preserves _ (raise _) => apply preserves_raise
  | |- preserves _ (gets _) => apply preserves_gets
  | |- preserves _ (getitem _ _) => apply preserves_getitem
  | |- preserves _ (modify _) => apply preserves_modify; intros ?; reflexivity
  | |- preserves _ (try_except_else _ _ _) =>
      apply preserves_try; [|intros []; simpl|intros ?]
  | |- preserves _ (if ?b then _ else _) => destruct b
  | |- preserves _ (match ?x with _ => _ end) => destruct x
  | |- True => exact I
  end.

Ltac frame := repeat frame_step.

Lemma untouched_feedback_out : untouched feedback_out.
Proof. by repeat split. Qed.
Lemma untouched_shutdown : untouched shutdown.
Proof. by repeat split. Qed.

Ltac frame_modify H :=
  apply preserves_modify; intros;
  destruct H as (H1 & H2 & H3 & H4 & H5 & H6);
  unfold command_out_update, logger_log, set_drive_command;
  rewrite ?H1, ?H2, ?H3, ?H4, ?H5, ?H6; reflexivity.

Lemma trigger_untouched {B} (proj : t → B) event msg :
  untouched proj → preserves proj (trigger event msg).
Proof.
  intros H.
  unfold trigger, on_before, on_enter, on_change_state,
    on_before_init_command, on_before_init_complete, on_before_fault_command,
    on_before_start_command, on_before_start_2, on_before_start_complete,
    on_before_stop_command, on_before_stop_complete,
    on_enter_init_1, on_enter_init_complete, on_enter_fault_1, on_enter_fault_complete,
    on_enter_start_1, on_enter_start_2, on_enter_start_complete, on_enter_stop_1,
    on_enter_stop_complete, fsm_check_command, fsm_set_drive_state_cmd, fsm_finalize_command.
  frame. all: frame_modify H.
Qed.

Lemma set_command_untouched {B} (proj : t → B) kw :
  untouched proj → preserves proj (set_command kw).
Proof.
  intros H.
  unfold set_command, set_command_external, set_command_event,
    set_command_handle_fault_fb, automatic_next_event, state_str.
  frame.
  all: try (apply trigger_untouched; exact H).
  all: frame_modify H.
Qed.

Section Loop.
Variable reinit : FeedbackOut.t → FeedbackOut.t.

Lemma run_loop_body_ok inp m : (run_loop_body reinit inp m).1 = Ok tt.
Proof.
  unfold run_loop_body, read_update_write, try_except_else, bind, gets.
  destruct (read_update_write_try reinit inp m) as [[[]|e] m1].
  - cbn. by destruct (fast_track m1).
  - destruct e; cbn; by destruct (fast_track m1).
Qed.

Lemma run_loop_while_shutdown rest m :
  shutdown m = true → run_loop_while reinit rest m = (Ok tt, m).
Proof. intros H. destruct rest; [done|]. cbn. unfold bind, gets. by rewrite H. Qed.

Lemma run_loop_while_cons inp rest m :
  shutdown m = false →
  run_loop_while reinit (inp :: rest) m
  = run_loop_while reinit rest (run_loop_body reinit inp m).2.
Proof.
  intros H. cbn. unfold bind at 1, gets. rewrite H. unfold bind.
  pose proof (run_loop_body_ok inp m) as Hok.
  destruct (run_loop_body reinit inp m) as [[[]|e] m1]; [done|discriminate Hok].
Qed.

Lemma read_update_write_try_shutdown inp :
  preserves shutdown (read_update_write_try reinit inp).
Proof.
  unfold read_update_write_try, read, write. frame.
  - intros s. by destruct (get_feedback_spec reinit (dev_get_feedback inp) s) as (_&_&_&H&_).
  - apply set_command_untouched, untouched_shutdown.
Qed.

(** C8.  An exception raised in the read, feedback, command or write
    phase of a tick while the loop runs.  Any exception but the operator's
    interrupt is caught by the loop: the backtrace is logged at error
    level, the commanded state is forced to [STATE_FAULT] with [state_log]
    "Unexpected exception", [shutdown] stays clear and the loop goes on
    with the next tick.  The operator's interrupt is logged, sets
    [shutdown] and leaves the command as it is; the loop ends with this
    tick. *)
Theorem exception_containment inp m e m1 :
  shutdown m = false →
  read_update_write_try reinit inp m = (Raise e, m1) →
  let m' := (run_loop_body reinit inp m).2 in
  (∀ rest, run_loop_while reinit (inp :: rest) m = run_loop_while reinit rest m')
  ∧ if is_Exception e then
      logger m' = (logger m1 ++ (ERROR, "Ignoring unexpected exception; details:")
                     :: ((λ line, (ERROR, line)) <$> format_exc e))%list
      ∧ CommandOut.state (values (command_out m')) = STATE_FAULT
      ∧ CommandOut.state_log (values (command_out m')) = "Unexpected exception"
      ∧ shutdown m' = false
      ∧ ∀ inp' rest, run_loop_while reinit (inp :: inp' :: rest) m
                     = run_loop_while reinit rest (run_loop_body reinit inp' m').2
    else
      logger m' = (logger m1 ++ [(INFO, "KeyboardInterrupt: " +:+ str_exn e)])%list
      ∧ command_out m' = command_out m1
      ∧ shutdown m' = true
      ∧ ∀ rest, run_loop_while reinit (inp :: rest) m = (Ok tt, m').
Proof.
  intros Hsd Htry m'.
  assert (Hloop : ∀ rest, run_loop_while reinit (inp :: rest) m
                          = run_loop_while reinit rest m')
    by (intros; by apply run_loop_while_cons).
  split; [exact Hloop|].
  pose proof (read_update_write_try_shutdown inp m) as Hsd1.
  rewrite Htry, Hsd in Hsd1. simpl in Hsd1.
  assert (Hm' : m' = (run_loop_body reinit inp m).2) by reflexivity.
  unfold run_loop_body, read_update_write, try_except_else, bind, gets in Hm'.
  rewrite Htry in Hm'.
  destruct e; cbn in Hm'; cbn [is_Exception str_exn].
  1: { (* KeyboardInterrupt *)
    assert (Hs : shutdown m' = true) by (rewrite Hm'; by destruct (fast_track m1)).
    repeat split.
    - rewrite Hm'. by destruct (fast_track m1).
    - rewrite Hm'. by destruct (fast_track m1).
    - exact Hs.
    - intros rest. rewrite Hloop. by apply run_loop_while_shutdown. }
  all: assert (Hs : shutdown m' = false) by (rewrite Hm'; by destruct (fast_track m1)).
  all: split; [rewrite Hm'; destruct (fast_track m1); cbn; unfold log;
               rewrite <- !app_assoc; reflexivity|].
  all: split; [rewrite Hm'; by destruct (fast_track m1)|].
  all: split; [rewrite Hm'; by destruct (fast_track m1)|].
  all: split; [exact Hs|].
  all: intros; rewrite Hloop; by apply run_loop_while_cons.
Qed.

Lemma run_loop_body_feedback_out inp m :
  feedback_out (run_loop_body reinit inp m).2
  = match io_read inp with
    | None => feedback_out (get_feedback reinit (dev_get_feedback inp) m)
    | Some _ => feedback_out m
    end.
Proof.
  unfold run_loop_body, read_update_write, read_update_write_try, read,
    try_except_else, bind, gets.
  destruct (io_read inp) as [e|].
  - unfold raise. destruct e; cbn; by destruct (fast_track m).
  - unfold ret at 1, modify at 1.
    pose proof (set_command_untouched feedback_out (cmd_in_kwargs inp)
                  untouched_feedback_out
                  (get_feedback reinit (dev_get_feedback inp) m)) as Hp.
    destruct (set_command (cmd_in_kwargs inp)
                (get_feedback reinit (dev_get_feedback inp) m)) as [[[]|e] m1];
      simpl in Hp.
    + unfold write. destruct (io_write inp) as [e|].
      * unfold raise. destruct e; cbn; by destruct (fast_track m1).
      * cbn. by destruct (fast_track m1).
    + destruct e; cbn; by destruct (fast_track m1).
Qed.

Lemma run_loop_body_fault_desc inp m :
  CommandOut.state (values (command_out m)) = STATE_FAULT →
  FeedbackOut.fault_desc (values (feedback_out (run_loop_body reinit inp m).2))
  = FeedbackOut.fault_desc (values (feedback_out m)).
Proof.
  intros Hs. rewrite run_loop_body_feedback_out.
  destruct (io_read inp); [done|].
  destruct (get_feedback_spec reinit (dev_get_feedback inp) m)
    as (_&_&_&_&_&_&_&_&_&Hd&_).
  rewrite Hd. unfold fault_desc_fb. by rewrite Hs.
Qed.

(** C2.  Let [m] be the manager at the end of the tick that took it into
    [STATE_FAULT], and let the commanded state be [STATE_FAULT] at the
    start of every tick since.  Then [fault_desc] is still the one that
    [m] recorded, and on the next tick in [STATE_FAULT], [get_feedback]
    reports [fault] set and that same [fault_desc]. *)
Theorem fault_desc_sticks inputs m :
  in_fault_throughout reinit inputs m →
  let m' := (run_loop_while reinit inputs m).2 in
  FeedbackOut.fault_desc (values (feedback_out m'))
  = FeedbackOut.fault_desc (values (feedback_out m))
  ∧ ∀ dev_fb,
      CommandOut.state (values (command_out m')) = STATE_FAULT →
      let fb := values (feedback_out (get_feedback reinit dev_fb m')) in
      FeedbackOut.fault fb = true
      ∧ FeedbackOut.fault_desc fb = FeedbackOut.fault_desc (values (feedback_out m)).
Proof.
  intros Hin m'.
  assert (Hd : FeedbackOut.fault_desc (values (feedback_out m'))
               = FeedbackOut.fault_desc (values (feedback_out m))).
  { subst m'. revert m Hin. induction inputs as [|inp inputs IH]; intros m Hin; [done|].
    destruct Hin as [Hs Hin].
    destruct (shutdown m) eqn:Hsd.
    - by rewrite run_loop_while_shutdown.
    - rewrite run_loop_while_cons by done. rewrite IH by done.
      by apply run_loop_body_fault_desc. }
  split; [exact Hd|].
  intros dev_fb Hs fb.
  destruct (get_feedback_spec reinit dev_fb m') as (_&_&_&_&_&_&_&_&Hf&Hfd&_).
  subst fb. rewrite Hf, Hfd. unfold fault_fb, fault_desc_fb. rewrite Hs. cbn.
  split; [done|exact Hd].
Qed.

End Loop.

(** ** A new fault and an external command in one tick *)

(** C3.  [state_set] rises with a valid command that differs from the
    commanded state, the feedback has a new fault, and the manager was not
    in [STATE_FAULT].  [set_command] sets the commanded state to
    [STATE_FAULT] and then looks up ["fault"] in [command_out], which has
    no such attribute: it raises [KeyError] before it logs that the
    command is ignored, and before it triggers the fault event. *)
Theorem new_fault_with_command_raises (kw : CommandIn.t) (m : t) (name : string) :
  CommandIn.state_set (values (command_in m)) = false →
  CommandIn.state_set kw = true →
  cmd_int_to_name_map !! CommandIn.state_cmd kw = Some name →
  CommandIn.state_cmd kw ≠ CommandOut.state (values (command_out m)) →
  FeedbackOut.fault (values (feedback_out m)) = true →
  changed FeedbackOut.fault (feedback_out m) = true →
  CommandOut.state (values (command_out m)) ≠ STATE_FAULT →
  let r := set_command kw m in
  r.1 = Raise (KeyError "fault")
  ∧ state r.2 = state m
  ∧ CommandOut.state (values (command_out r.2)) = STATE_FAULT
  ∧ CommandOut.state_log (values (command_out r.2)) = "Manager fault"
  ∧ logger r.2
    = (logger m ++ [(INFO, "State command set:  '" +:+ name +:+ "'");
                    (WARNING, "Manager/device fault; entering fault state")])%list.
Proof.
  intros Hold Hset Hname Hne Hf Hch Hnf.
  unfold set_command, set_command_external, set_command_handle_fault_fb,
    bind, gets, modify, rising_edge.
  cbn -[cmd_int_to_name_map lookup pretty N.eqb]. rewrite Hold, Hset, Hname.
  cbn -[cmd_int_to_name_map lookup pretty N.eqb].
  rewrite (proj2 (N.eqb_neq _ _) Hne). cbn -[cmd_int_to_name_map lookup pretty N.eqb].
  rewrite Hf, Hch.
  rewrite (proj2 (N.eqb_neq _ _) Hnf). cbn -[cmd_int_to_name_map lookup pretty N.eqb].
  rewrite Hch. cbn -[cmd_int_to_name_map lookup pretty N.eqb].
  unfold log. rewrite <- app_assoc. repeat split; reflexivity.
Qed.

Lemma new_fault_with_command_raises_witness :
  let r := set_command (command STATE_START) fault_in_stop_complete in
  r.1 = Raise (KeyError "fault")
  ∧ state r.2 = "stop_complete"
  ∧ CommandOut.state (values (command_out r.2)) = STATE_FAULT
  ∧ logged WARNING (logger r.2) = ["Manager/device fault; entering fault state"].
Proof.
  intros r.
  destruct (new_fault_with_command_raises (command STATE_START)
              fault_in_stop_complete "start")
    as (H1 & H2 & H3 & _ & H5); try (vm_compute; reflexivity).
  - intros H; vm_compute in H; discriminate H.
  - intros H; vm_compute in H; discriminate H.
  - fold r in H1, H2, H3, H5.
    split; [exact H1|]. split; [rewrite H2; vm_compute; reflexivity|].
    split; [exact H3|]. rewrite H5. vm_compute; reflexivity.
Defined.

(** The same tick through the loop: the exception is contained, the
    commanded state is [STATE_FAULT] with the log of an unexpected
    exception, the state machine has not moved, and no warning says that
    the command was ignored. *)
Example new_fault_with_command_tick :
  let m := (run_loop_body reset_to_defaults
              (tick drive_in_fault (command STATE_START))
              (after reset_to_defaults [drive_a] cold_init)).2 in
  state m = "stop_complete"
  ∧ CommandOut.state (values (command_out m)) = STATE_FAULT
  ∧ CommandOut.state_log (values (command_out m)) = "Unexpected exception"
  ∧ logged WARNING (logger m) = ["Manager/device fault; entering fault state"]
  ∧ logged ERROR (logger m)
    = ["Ignoring unexpected exception; details:";
       "Traceback (most recent call last):"; "KeyError: 'fault'"].
Proof. vm_compute. done. Qed.

(** ** Witnesses and counterexamples of the loop properties *)

Lemma exception_containment_witness :
  let m := init [drive_a] in
  let m1 := (run_loop_body reset_to_defaults (read_raises (Exception "EIO")) m).2 in
  let m2 := (run_loop_body reset_to_defaults (read_raises (KeyboardInterrupt "")) m).2 in
  (CommandOut.state (values (command_out m1)) = STATE_FAULT
   ∧ CommandOut.state_log (values (command_out m1)) = "Unexpected exception"
   ∧ shutdown m1 = false)
  ∧ (shutdown m2 = true
     ∧ ∀ rest, run_loop_while reset_to_defaults
                 (read_raises (KeyboardInterrupt "") :: rest) m = (Ok tt, m2)).
Proof.
  intros m m1 m2. split.
  - assert (Htry : read_update_write_try reset_to_defaults
                     (read_raises (Exception "EIO")) m
                   = (Raise (Exception "EIO"), m)) by (vm_compute; reflexivity).
    destruct (exception_containment reset_to_defaults (read_raises (Exception "EIO"))
                m (Exception "EIO") m eq_refl Htry)
      as (_ & _ & Hs & Hl & Hsd & _).
    exact (conj Hs (conj Hl Hsd)).
  - assert (Htry : read_update_write_try reset_to_defaults
                     (read_raises (KeyboardInterrupt "")) m
                   = (Raise (KeyboardInterrupt ""), m)) by (vm_compute; reflexivity).
    destruct (exception_containment reset_to_defaults
                (read_raises (KeyboardInterrupt "")) m (KeyboardInterrupt "") m
                eq_refl Htry)
      as (_ & _ & _ & Hsd & Hend).
    exact (conj Hsd Hend).
Defined.

Lemma fault_desc_sticks_witness :
  let inputs := [tick drive_in_fault no_command;
                 tick (drive_at "SWITCH ON DISABLED") no_command] in
  let m' := (run_loop_while reset_to_defaults inputs fault_entered).2 in
  CommandOut.state (values (command_out fault_entered)) = STATE_FAULT
  ∧ FeedbackOut.fault_desc (values (feedback_out fault_entered))
    = "Incremental sensor 1 fault (drive_a)"
  ∧ FeedbackOut.fault_desc (values (feedback_out m'))
    = FeedbackOut.fault_desc (values (feedback_out fault_entered)).
Proof.
  intros inputs m'.
  split; [vm_compute; reflexivity|]. split; [vm_compute; reflexivity|].
  assert (Hin : in_fault_throughout reset_to_defaults inputs fault_entered)
    by (vm_compute; repeat split).
  destruct (fault_desc_sticks reset_to_defaults inputs fault_entered Hin) as [Hd _].
  exact Hd.
Defined.

(** * Further properties of the code *)

(** ** Error devices: known codes and the error log *)

(** X1.  An error code other than zero that the catalog knows: the
    feedback carries the code and the catalog's description and advice
    for it. *)
Theorem known_error_code_entry
    (reinit : ErrorDevice.FeedbackOut → ErrorDevice.FeedbackOut)
    (d : ErrorDevice.t) (info : ErrorDevice.ErrorInfo) :
  let code := ErrorDevice.in_error_code (values (ErrorDevice.feedback_in d)) in
  code ≠ 0 →
  ErrorDevice.error_descriptions d !! code = Some info →
  values (ErrorDevice.feedback_out (ErrorDevice.get_feedback reinit d))
  = ErrorDevice.mkFeedbackOut code (ErrorDevice.info_description info)
      (ErrorDevice.info_advice info).
Proof.
  intros code Hnz Hinfo. unfold ErrorDevice.get_feedback. simpl.
  fold code. rewrite (proj2 (N.eqb_neq _ _) Hnz).
  unfold ErrorDevice.error_info. rewrite Hinfo. simpl.
  by destruct (changed _ _).
Qed.

Lemma known_error_code_entry_witness :
  ErrorDevice.in_error_code (values (ErrorDevice.feedback_in (error_device 0x7305))) ≠ 0
  ∧ values (ErrorDevice.feedback_out
              (ErrorDevice.get_feedback (λ v, v) (error_device 0x7305)))
    = ErrorDevice.mkFeedbackOut 0x7305 "Incremental sensor 1 fault"
        "Check the encoder cable".
Proof.
  assert (Hnz : ErrorDevice.in_error_code
                  (values (ErrorDevice.feedback_in (error_device 0x7305))) ≠ 0)
    by (vm_compute; discriminate).
  split; [exact Hnz|].
  exact (known_error_code_entry (λ v, v) (error_device 0x7305)
           (ErrorDevice.mkErrorInfo "Incremental sensor 1 fault" "Check the encoder cable")
           Hnz ltac:(vm_compute; reflexivity)).
Defined.

(** X2.  An error code other than zero is logged, at error level and with
    its description, exactly when it differs from the error code of the
    feedback before this call; the same code on the next call is not
    logged again. *)
Theorem error_logged_on_change
    (reinit : ErrorDevice.FeedbackOut → ErrorDevice.FeedbackOut)
    (d : ErrorDevice.t) :
  let code := ErrorDevice.in_error_code (values (ErrorDevice.feedback_in d)) in
  let info := ErrorDevice.error_info (ErrorDevice.error_descriptions d) code in
  code ≠ 0 →
  ErrorDevice.logger (ErrorDevice.get_feedback reinit d)
  = if decide (code = ErrorDevice.error_code (values (ErrorDevice.feedback_out d)))
    then ErrorDevice.logger d
    else (ErrorDevice.logger d
          ++ [(ERROR, ErrorDevice.name d +:+ ":  error code " +:+ pretty code
                      +:+ ":  " +:+ ErrorDevice.info_description info)])%list.
Proof.
  intros code info Hnz. unfold ErrorDevice.get_feedback. simpl.
  fold code. rewrite (proj2 (N.eqb_neq _ _) Hnz). fold info.
  unfold changed. simpl.
  case_decide as Heq; [by rewrite bool_decide_eq_false_2 by (intros H; by apply H)|].
  by rewrite bool_decide_eq_true_2.
Qed.

Lemma error_logged_on_change_witness :
  ErrorDevice.in_error_code (values (ErrorDevice.feedback_in (error_device 0xDEAD))) ≠ 0
  ∧ logged ERROR (ErrorDevice.logger (ErrorDevice.get_feedback (λ v, v) (error_device 0xDEAD)))
    = [ "drive_a:  error code 29445:  Incremental sensor 1 fault";
        "drive_a:  error code 57005:  Unknown error code 57005" ]
  ∧ ErrorDevice.logger (ErrorDevice.get_feedback (λ v, v) (error_device 0x7305))
    = ErrorDevice.logger (error_device 0x7305).
Proof.
  assert (H1 : ErrorDevice.in_error_code
                 (values (ErrorDevice.feedback_in (error_device 0xDEAD))) ≠ 0)
    by (vm_compute; discriminate).
  assert (H2 : ErrorDevice.in_error_code
                 (values (ErrorDevice.feedback_in (error_device 0x7305))) ≠ 0)
    by (vm_compute; discriminate).
  split; [exact H1|]. split.
  - rewrite (error_logged_on_change (λ v, v) (error_device 0xDEAD) H1).
    vm_compute. reflexivity.
  - rewrite (error_logged_on_change (λ v, v) (error_device 0x7305) H2).
    vm_compute. reflexivity.
Defined.

(** ** Merged descriptions *)

Lemma merge_device_descriptions_unfold descriptions :
  merge_device_descriptions descriptions
  = join "; " (merge_format <$> foldl merge_step [] descriptions).
Proof. reflexivity. Qed.

Lemma merge_step_filter acc (l : list (string * string)) :
  foldl merge_step acc (filter (λ x, x.2 ≠ "") l) = foldl merge_step acc l.
Proof.
  revert acc. induction l as [|[dev desc] l IH]; intros acc; [done|].
  rewrite filter_cons. simpl. case_decide as H; simpl.
  - apply IH.
  - rewrite IH. destruct (String.eqb_spec desc "") as [|Hn]; [done|]. exfalso. tauto.
Qed.

(** X3.  Devices with an empty description do not show in the merged
    description: dropping them from the dictionary first gives the same
    string. *)
Theorem merge_ignores_empty_descriptions (descriptions : list (string * string)) :
  merge_device_descriptions (filter (λ x, x.2 ≠ "") descriptions)
  = merge_device_descriptions descriptions.
Proof.
  rewrite !merge_device_descriptions_unfold. by rewrite merge_step_filter.
Qed.

Lemma merge_step_same d devs (l : list (string * string)) :
  d ≠ "" →
  Forall (λ x, x.2 = d) l →
  foldl merge_step [(d, devs)] l = [(d, (devs ++ l.*1)%list)].
Proof.
  intros Hd. revert devs. induction l as [|[dev desc] l IH]; intros devs Hall.
  - simpl. by rewrite app_nil_r.
  - apply Forall_cons_1 in Hall as [Hx Hall]. simpl in Hx. subst desc. simpl.
    rewrite (proj2 (String.eqb_neq _ _) Hd). simpl. rewrite String.eqb_refl.
    rewrite IH by done. by rewrite <- app_assoc.
Qed.

(** X4.  Devices that all have the same description, not empty, are
    merged into one entry: the description once, followed by the devices
    in their order, separated by commas. *)
Theorem merge_groups_same_description (d : string) (dev : string)
    (descriptions : list (string * string)) :
  d ≠ "" →
  Forall (λ x, x.2 = d) descriptions →
  merge_device_descriptions ((dev, d) :: descriptions)
  = d +:+ " (" +:+ join "," (dev :: descriptions.*1) +:+ ")".
Proof.
  intros Hd Hall. rewrite merge_device_descriptions_unfold. simpl.
  rewrite (proj2 (String.eqb_neq _ _) Hd). simpl.
  rewrite merge_step_same by done. reflexivity.
Qed.

Lemma merge_groups_same_description_witness :
  merge_device_descriptions [("drive_a", "Offline"); ("drive_b", "Offline");
                             ("drive_c", "Offline")]
  = "Offline (drive_a,drive_b,drive_c)".
Proof.
  rewrite (merge_groups_same_description "Offline" "drive_a"
             [("drive_b", "Offline"); ("drive_c", "Offline")]).
  - vm_compute. reflexivity.
  - discriminate.
  - repeat constructor.
Defined.

Lemma setdefault_append_fresh desc dev rev :
  desc ∉ rev.*1 → setdefault_append desc dev rev = (rev ++ [(desc, [dev])])%list.
Proof.
  induction rev as [|[d devs] rev IH]; intros Hn; [done|].
  simpl in *. apply not_elem_of_cons in Hn as [Hne Hn].
  rewrite (proj2 (String.eqb_neq d desc)) by done. by rewrite IH.
Qed.

Lemma merge_step_distinct acc (l : list (string * string)) :
  Forall (λ x, x.2 ≠ "") l →
  NoDup (acc.*1 ++ l.*2) →
  foldl merge_step acc l = (acc ++ ((λ x, (x.2, [x.1])) <$> l))%list.
Proof.
  revert acc. induction l as [|[dev desc] l IH]; intros acc Hne Hnd.
  - simpl. by rewrite app_nil_r.
  - apply Forall_cons_1 in Hne as [Hd Hne]. simpl in Hd. simpl.
    rewrite (proj2 (String.eqb_neq _ _) Hd).
    rewrite setdefault_append_fresh.
    + rewrite IH; [by rewrite <- app_assoc|done|].
      rewrite fmap_app. simpl. rewrite <- app_assoc. exact Hnd.
    + simpl in Hnd. apply NoDup_app in Hnd as (_ & Hdis & _).
      intros Hin. apply (Hdis desc Hin). apply list_elem_of_here.
Qed.

(** X5.  Devices whose descriptions are not empty and all different get
    one entry each, "description (device)", in the order of the
    dictionary and separated by "; ". *)
Theorem merge_lists_distinct_descriptions (descriptions : list (string * string)) :
  Forall (λ x, x.2 ≠ "") descriptions →
  NoDup descriptions.*2 →
  merge_device_descriptions descriptions
  = join "; " ((λ x, x.2 +:+ " (" +:+ x.1 +:+ ")") <$> descriptions).
Proof.
  intros Hne Hnd. rewrite merge_device_descriptions_unfold.
  rewrite merge_step_distinct by done. simpl.
  rewrite <- list_fmap_compose. reflexivity.
Qed.

Lemma merge_lists_distinct_descriptions_witness :
  merge_device_descriptions [("drive_a", "Offline"); ("drive_b", "Waiting: at FAULT")]
  = "Offline (drive_a); Waiting: at FAULT (drive_b)".
Proof.
  rewrite (merge_lists_distinct_descriptions
             [("drive_a", "Offline"); ("drive_b", "Waiting: at FAULT")]).
  - vm_compute. reflexivity.
  - repeat constructor; discriminate.
  - cbn. apply NoDup_cons. split; [|apply NoDup_singleton].
    rewrite elem_of_cons, elem_of_nil. intros [Hx|[]]. discriminate Hx.
Defined.

(** ** The events of the state machine *)

Lemma cmd_maps_inverse (n : N) (c : string) :
  cmd_name_to_int_map !! c = Some n → cmd_int_to_name_map !! n = Some c.
Proof.
  rewrite cmd_int_to_name_map_eq, cmd_name_to_int_map_eq.
  rewrite !lookup_insert, !lookup_empty.
  repeat case_decide; subst; intros Hx; try discriminate Hx; try done;
    inversion Hx; subst; done.
Qed.

Lemma startswith_false_neq s p t :
  startswith s p = false → startswith t p = true → s ≠ t.
Proof. intros H1 H2 Heq. subst. congruence. Qed.

Lemma fsm_check_command_accept (e : Event.t) (m : t) (c : string) (n : N) :
  fsm_command_from_event e = c →
  cmd_name_to_int_map !! c = Some n →
  (startswith (Event.src e) "init" && negb (String.eqb (Event.src e) "init_complete"))
  && negb (N.eqb n STATE_INIT) = false →
  negb (String.eqb (Event.src e) (c +:+ "_command")) && startswith (Event.src e) c = false →
  fsm_check_command e m
  = (Ok (true, e),
     command_out_update
       (λ co, CommandOut.set_command_complete false
                (CommandOut.set_state_log (Event.msg e) (CommandOut.set_state n co)))
       (logger_log DEBUG ("Received " +:+ c +:+ " command:  " +:+ Event.msg e) m)).
Proof.
  intros Hc Hn H1 H2. unfold fsm_check_command, bind, getitem.
  rewrite Hc, Hn. unfold ret at 1. rewrite H1, H2. reflexivity.
Qed.

Lemma trigger_command_accepted (c : string) (m : t) (msg : string)
    (dst : string) (n : N) (drive : string) :
  command_entry c = Some (dst, n, drive) →
  startswith (state m) "init" = false ∨ state m = "init_complete" →
  startswith (state m) c = false →
  ∃ m', trigger (c +:+ "_command") msg m = (Ok tt, m')
        ∧ state m' = dst
        ∧ values (command_out m') = CommandOut.mk n msg false false drive
        ∧ values_old (command_out m') = values_old (command_out m)
        ∧ feedback_out m' = feedback_out m
        ∧ devices m' = devices m
        ∧ fast_track m' = fast_track m.
Proof.
  intros Hc Hinit Hrun.
  assert (Hib : ∀ b, (startswith (state m) "init"
                      && negb (String.eqb (state m) "init_complete")) && b = false).
  { intros b. destruct Hinit as [H|H]; [by rewrite H|]. rewrite H. reflexivity. }
  assert (Hrb : ∀ b, b && startswith (state m) c = false)
    by (intros; rewrite Hrun; apply andb_false_r).
  destruct (GSM_dst_command (state m)) as (H1 & H2 & H3).
  unfold command_entry in Hc.
  destruct (String.eqb_spec c "start") as [Hx|_];
    [|destruct (String.eqb_spec c "stop") as [Hx|_];
      [|destruct (String.eqb_spec c "fault") as [Hx|_]; [|discriminate Hc]]];
    subst c; inversion Hc; subst dst n drive; clear Hc.
  - change ("start" +:+ "_command") with "start_command".
    unfold trigger, bind, gets. rewrite H1.
    unfold on_before; cbn [Event.event String.eqb Ascii.eqb Bool.eqb].
    unfold on_before_start_command.
    erewrite (fsm_check_command_accept _ _ "start" 2);
      [|reflexivity|by rewrite cmd_name_to_int_map_eq|apply Hib|apply Hrb].
    assert (Hne : String.eqb (state m) "start_1" = false).
    { apply String.eqb_neq. by apply (startswith_false_neq _ "start"). }
    cbn -[String.append changed]. rewrite Hne.
    cbn -[String.append changed].
    destruct (changed _ _); eexists; (split; [reflexivity|]); cbn; done.
  - change ("stop" +:+ "_command") with "stop_command".
    unfold trigger, bind, gets. rewrite H2.
    unfold on_before; cbn [Event.event String.eqb Ascii.eqb Bool.eqb].
    unfold on_before_stop_command.
    erewrite (fsm_check_command_accept _ _ "stop" 1);
      [|reflexivity|by rewrite cmd_name_to_int_map_eq|apply Hib|apply Hrb].
    assert (Hne : String.eqb (state m) "stop_1" = false).
    { apply String.eqb_neq. by apply (startswith_false_neq _ "stop"). }
    cbn -[String.append changed]. rewrite Hne.
    cbn -[String.append changed].
    destruct (changed _ _); eexists; (split; [reflexivity|]); cbn; done.
  - change ("fault" +:+ "_command") with "fault_command".
    unfold trigger, bind, gets. rewrite H3.
    unfold on_before; cbn [Event.event String.eqb Ascii.eqb Bool.eqb].
    unfold on_before_fault_command, bind.
    erewrite (fsm_check_command_accept _ _ "fault" 4);
      [|reflexivity|by rewrite cmd_name_to_int_map_eq|apply Hib|apply Hrb].
    assert (Hne : String.eqb (state m) "fault_1" = false).
    { apply String.eqb_neq. by apply (startswith_false_neq _ "fault"). }
    cbn -[String.append changed]. rewrite Hne.
    cbn -[String.append changed].
    destruct (changed _ _); eexists; (split; [reflexivity|]); cbn; done.
Qed.

(** X6.  The event of a START, STOP or FAULT command, triggered outside
    the init states (or in [init_complete]) and outside the states of
    that same command, is accepted: the state machine enters the first
    state of the command, the commanded state is the one of the command
    with the message of the event as [state_log], [command_complete] and
    [reset] are cleared, and [drive_state] is the CiA-402 state the
    command starts with.  The feedback, the drives and [fast_track] are
    not touched. *)
Theorem command_accepted (c : string) (m : t) (msg : string)
    (dst : string) (n : N) (drive : string) :
  command_entry c = Some (dst, n, drive) →
  startswith (state m) "init" = false ∨ state m = "init_complete" →
  startswith (state m) c = false →
  ∃ m', trigger (c +:+ "_command") msg m = (Ok tt, m')
        ∧ state m' = dst
        ∧ values (command_out m') = CommandOut.mk n msg false false drive
        ∧ values_old (command_out m') = values_old (command_out m)
        ∧ feedback_out m' = feedback_out m
        ∧ devices m' = devices m
        ∧ fast_track m' = fast_track m.
Proof.
  exact (trigger_command_accepted c m msg dst n drive).
Qed.

Lemma command_accepted_witness :
  ∃ m', trigger "start_command" "External command 'start'" stopped = (Ok tt, m')
        ∧ state m' = "start_1"
        ∧ values (command_out m')
          = CommandOut.mk STATE_START "External command 'start'" false false "SWITCHED ON".
Proof.
  destruct (command_accepted "start" stopped "External command 'start'"
              "start_1" STATE_START "SWITCHED ON")
    as (m' & Ht & Hs & Hv & _).
  - reflexivity.
  - left. vm_compute. reflexivity.
  - vm_compute. reflexivity.
  - exists m'. exact (conj Ht (conj Hs Hv)).
Defined.

Lemma startswith_command_not_init (s c : string) :
  c ∈ ["start"; "stop"; "fault"] → startswith s c = true → startswith s "init" = false.
Proof.
  intros Hc. rewrite !elem_of_cons, elem_of_nil in Hc.
  destruct Hc as [Hx|[Hx|[Hx|[]]]]; subst c; unfold startswith.
  all: destruct s as [|a s]; [discriminate|]; cbn [String.prefix].
  all: destruct (ascii_dec "i" a) as [Hi|Hi]; [subst a|reflexivity].
  all: match goal with
       | |- context [ascii_dec ?x ?y] => destruct (ascii_dec x y) as [He|He]
       end.
  all: first [discriminate He|discriminate].
Qed.

(** X7.  The event of a START, STOP or FAULT command, triggered while the
    state machine is already in a state of that command, is canceled: the
    only effect is a warning in the log; the command, the state and the
    drives stay as they are. *)
Theorem redundant_command_rejected (c : string) (m : t) (msg : string) :
  c ∈ ["start"; "stop"; "fault"] →
  startswith (state m) c = true →
  state m ≠ c +:+ "_command" →
  trigger (c +:+ "_command") msg m
  = (Raise (Canceled ("Cannot trigger event " +:+ c +:+ "_command because the onbefore"
                      +:+ c +:+ "_command handler returns False")),
     logger_log WARNING ("Ignoring " +:+ c +:+ " command from state " +:+ state m) m).
Proof.
  intros Hc Hrun Hne.
  pose proof (startswith_command_not_init _ _ Hc Hrun) as Hni.
  apply String.eqb_neq in Hne.
  destruct (GSM_dst_command (state m)) as (H1 & H2 & H3).
  rewrite !elem_of_cons, elem_of_nil in Hc.
  destruct Hc as [Hx|[Hx|[Hx|[]]]]; subst c.
  - change ("start" +:+ "_command") with "start_command" in *.
    unfold trigger, bind, gets. rewrite H1.
    unfold on_before; cbn [Event.event String.eqb Ascii.eqb Bool.eqb].
    unfold on_before_start_command, fsm_check_command, bind, getitem.
    change (fsm_command_from_event _) with "start".
    rewrite cmd_name_to_int_map_eq.
    change ((<["init":=0]> (<["stop":=1]> (<["start":=2]> (<["fault":=4]> ∅))) : gmap string N) !! "start") with (Some 2).
    unfold ret at 1. cbn [Event.src]. rewrite Hni. cbn [andb].
    change ("start" +:+ "_command") with "start_command". rewrite Hne, Hrun.
    reflexivity.
  - change ("stop" +:+ "_command") with "stop_command" in *.
    unfold trigger, bind, gets. rewrite H2.
    unfold on_before; cbn [Event.event String.eqb Ascii.eqb Bool.eqb].
    unfold on_before_stop_command, fsm_check_command, bind, getitem.
    change (fsm_command_from_event _) with "stop".
    rewrite cmd_name_to_int_map_eq.
    change ((<["init":=0]> (<["stop":=1]> (<["start":=2]> (<["fault":=4]> ∅))) : gmap string N) !! "stop") with (Some 1).
    unfold ret at 1. cbn [Event.src]. rewrite Hni. cbn [andb].
    change ("stop" +:+ "_command") with "stop_command". rewrite Hne, Hrun.
    reflexivity.
  - change ("fault" +:+ "_command") with "fault_command" in *.
    unfold trigger, bind, gets. rewrite H3.
    unfold on_before; cbn [Event.event String.eqb Ascii.eqb Bool.eqb].
    unfold on_before_fault_command, fsm_check_command, bind, getitem.
    change (fsm_command_from_event _) with "fault".
    rewrite cmd_name_to_int_map_eq.
    change ((<["init":=0]> (<["stop":=1]> (<["start":=2]> (<["fault":=4]> ∅))) : gmap string N) !! "fault") with (Some 4).
    unfold ret at 1. cbn [Event.src]. rewrite Hni. cbn [andb].
    change ("fault" +:+ "_command") with "fault_command". rewrite Hne, Hrun.
    reflexivity.
Qed.

Lemma redundant_command_rejected_witness :
  let r := trigger "stop_command" "External command 'stop'" stopped in
  state stopped = "stop_complete"
  ∧ r.1 = Raise (Canceled "Cannot trigger event stop_command because the onbeforestop_command handler returns False")
  ∧ command_out r.2 = command_out stopped
  ∧ logged WARNING (logger r.2)
    = (logged WARNING (logger stopped)
       ++ ["Ignoring stop command from state stop_complete"])%list.
Proof.
  intros r. subst r.
  assert (Hs : state stopped = "stop_complete") by (vm_compute; reflexivity).
  split; [exact Hs|].
  assert (Hc : "stop" ∈ ["start"; "stop"; "fault"]) by (rewrite !elem_of_cons; auto).
  assert (Hrun : startswith (state stopped) "stop" = true)
    by (rewrite Hs; vm_compute; reflexivity).
  assert (Hne : state stopped ≠ "stop" +:+ "_command") by (rewrite Hs; discriminate).
  pose proof (redundant_command_rejected "stop" stopped "External command 'stop'"
                Hc Hrun Hne) as Hr.
  change ("stop" +:+ "_command") with "stop_command" in Hr.
  rewrite Hr. split; [reflexivity|]. split; [reflexivity|].
  rewrite Hs. vm_compute. reflexivity.
Defined.

Lemma GSM_dst_goal_events (src : string) :
  GSM_dst "start_2" src = (if String.eqb src "start_1" then Some "start_2" else None)
  ∧ GSM_dst "start_complete" src
    = (if String.eqb src "start_2" then Some "start_complete" else None)
  ∧ GSM_dst "stop_complete" src
    = (if String.eqb src "stop_1" then Some "stop_complete" else None)
  ∧ GSM_dst "fault_complete" src
    = (if String.eqb src "fault_1" then Some "fault_complete" else None).
Proof.
  unfold GSM_dst, GSM_events. cbn.
  destruct (String.eqb src "start_1"), (String.eqb src "start_2"),
    (String.eqb src "stop_1"), (String.eqb src "fault_1"); done.
Qed.

(** X8.  If the event [start_2] fires, the state machine was in
    [start_1] and every drive had reached its goal; it is then in
    [start_2], the drives are asked for OPERATION ENABLED and [reset] is
    set. *)
Theorem start_2_transition (m m' : t) (msg : string) :
  trigger "start_2" msg m = (Ok tt, m') →
  state m = "start_1"
  ∧ all_drives DevFeedbackOut.goal_reached m
  ∧ state m' = "start_2"
  ∧ values (command_out m')
    = CommandOut.set_reset true
        (CommandOut.set_drive_state "OPERATION ENABLED" (values (command_out m))).
Proof.
  unfold trigger, bind, gets.
  destruct (GSM_dst_goal_events (state m)) as (H1 & _). rewrite H1.
  destruct (String.eqb_spec (state m) "start_1") as [Hs|Hs]; [|done].
  cbn. unfold fsm_check_drive_goal_state.
  destruct (truth (query_devices false DevFeedbackOut.goal_reached false m)) eqn:Hg;
    cbn; [done|].
  apply query_devices_false_nil in Hg. rewrite Hs. cbn.
  destruct (changed _ _); intros [= <-]; done.
Qed.

Lemma start_2_transition_witness :
  let m' := (trigger "start_2" "Automatic transition from start_1 state" in_start_1).2 in
  state in_start_1 = "start_1"
  ∧ state m' = "start_2"
  ∧ CommandOut.drive_state (values (command_out m')) = "OPERATION ENABLED"
  ∧ CommandOut.reset (values (command_out m')) = true.
Proof.
  intros m'.
  destruct (start_2_transition in_start_1 m' "Automatic transition from start_1 state")
    as (H1 & _ & H2 & H3); [vm_compute; reflexivity|].
  split; [exact H1|]. split; [exact H2|]. rewrite H3. split; reflexivity.
Defined.

(** X9.  If the event [start_complete] or [stop_complete] fires, the
    state machine was in the state before it ([start_2], [stop_1]) and
    every drive had reached its goal; the command is then complete and
    [reset] is cleared. *)
Theorem completion_transition (c : string) (m m' : t) (msg : string) :
  c = "start" ∨ c = "stop" →
  trigger (c +:+ "_complete") msg m = (Ok tt, m') →
  state m = (if String.eqb c "start" then "start_2" else "stop_1")
  ∧ all_drives DevFeedbackOut.goal_reached m
  ∧ state m' = c +:+ "_complete"
  ∧ values (command_out m')
    = CommandOut.set_reset false
        (CommandOut.set_command_complete true (values (command_out m))).
Proof.
  intros Hc. unfold trigger, bind, gets.
  destruct (GSM_dst_goal_events (state m)) as (_ & H1 & H2 & _).
  destruct Hc as [Hc|Hc]; subst c.
  - change ("start" +:+ "_complete") with "start_complete". rewrite H1.
    destruct (String.eqb_spec (state m) "start_2") as [Hs|Hs]; [|done].
    cbn. unfold fsm_check_drive_goal_state.
    destruct (truth (query_devices false DevFeedbackOut.goal_reached false m)) eqn:Hg;
      cbn; [done|].
    apply query_devices_false_nil in Hg. rewrite Hs. cbn.
    destruct (changed _ _); intros [= <-]; done.
  - change ("stop" +:+ "_complete") with "stop_complete". rewrite H2.
    destruct (String.eqb_spec (state m) "stop_1") as [Hs|Hs]; [|done].
    cbn. unfold fsm_check_drive_goal_state.
    destruct (truth (query_devices false DevFeedbackOut.goal_reached false m)) eqn:Hg;
      cbn; [done|].
    apply query_devices_false_nil in Hg. rewrite Hs. cbn.
    destruct (changed _ _); intros [= <-]; done.
Qed.

Lemma completion_transition_witness :
  let m' := (trigger "stop_complete" "Automatic transition from stop_1 state" in_stop_1).2 in
  state in_stop_1 = "stop_1"
  ∧ state m' = "stop_complete"
  ∧ CommandOut.command_complete (values (command_out m')) = true.
Proof.
  intros m'.
  destruct (completion_transition "stop" in_stop_1 m'
              "Automatic transition from stop_1 state")
    as (H1 & _ & H2 & H3); [by right|vm_compute; reflexivity|].
  split; [exact H1|]. split; [exact H2|]. rewrite H3. reflexivity.
Defined.

(** X10.  [fault_complete] has no guard: in [fault_1] it fires whatever
    the drives report, and completes the FAULT command. *)
Theorem fault_complete_unguarded (m : t) (msg : string) :
  state m = "fault_1" →
  ∃ m', trigger "fault_complete" msg m = (Ok tt, m')
        ∧ state m' = "fault_complete"
        ∧ values (command_out m')
          = CommandOut.set_reset false
              (CommandOut.set_command_complete true (values (command_out m)))
        ∧ devices m' = devices m.
Proof.
  intros Hs. unfold trigger, bind, gets.
  destruct (GSM_dst_goal_events (state m)) as (_ & _ & _ & H1). rewrite H1, Hs.
  cbn. destruct (changed _ _); eexists; (split; [reflexivity|]); done.
Qed.

Lemma fault_complete_unguarded_witness :
  state fault_entered = "fault_1"
  ∧ fsm_check_drive_goal_state
      (Event.mk "fault_complete" "fault_1" "fault_complete" "" None) fault_entered = false
  ∧ ∃ m', trigger "fault_complete" "Automatic transition from fault_1 state" fault_entered
          = (Ok tt, m')
          ∧ state m' = "fault_complete".
Proof.
  assert (Hs : state fault_entered = "fault_1") by (vm_compute; reflexivity).
  split; [exact Hs|]. split.
  - vm_compute. reflexivity.
  - destruct (fault_complete_unguarded fault_entered
                "Automatic transition from fault_1 state" Hs) as (m' & Ht & Hst & _).
    exists m'. exact (conj Ht Hst).
Defined.

(** ** The event of a tick *)

Lemma fsm_next_state_map_lookup :
  fsm_next_state_map !! "init"
  = Some (<["init_1" := Some "init_complete"]> (<["init_complete" := None]> ∅))
  ∧ fsm_next_state_map !! "start"
    = Some (<["start_1" := Some "start_2"]> (<["start_2" := Some "start_complete"]>
              (<["start_complete" := None]> ∅)))
  ∧ fsm_next_state_map !! "stop"
    = Some (<["stop_1" := Some "stop_complete"]> (<["stop_complete" := None]> ∅))
  ∧ fsm_next_state_map !! "fault"
    = Some (<["fault_1" := Some "fault_complete"]> (<["fault_complete" := None]> ∅)).
Proof. repeat split; vm_compute; reflexivity. Qed.

(** X11.  With the commanded state unchanged in this tick and the state
    machine in the [*_complete] state of that command, [set_command]
    triggers no event: the manager is left exactly as it is. *)
Theorem at_rest_no_event (m : t) (c : string) :
  cmd_int_to_name_map !! CommandOut.state (values (command_out m)) = Some c →
  changed CommandOut.state (command_out m) = false →
  state m = c +:+ "_complete" →
  set_command_event m = (Ok tt, m).
Proof.
  intros Hc Hch Hs.
  unfold set_command_event, bind, gets. rewrite Hch.
  unfold automatic_next_event, bind. rewrite (state_str_run m c Hc).
  destruct fsm_next_state_map_lookup as (Hi & Hst & Hsp & Hf).
  apply cmd_int_to_name_cases in Hc as [[_ Hx]|[[_ Hx]|[[_ Hx]|[_ Hx]]]]; subst c;
    unfold getitem, gets; rewrite ?Hi, ?Hst, ?Hsp, ?Hf; unfold ret at 1; rewrite Hs.
  - change ("init" +:+ "_complete") with "init_complete". reflexivity.
  - change ("stop" +:+ "_complete") with "stop_complete". reflexivity.
  - change ("start" +:+ "_complete") with "start_complete". reflexivity.
  - change ("fault" +:+ "_complete") with "fault_complete". reflexivity.
Qed.

Lemma at_rest_no_event_witness :
  state at_rest = "stop_complete"
  ∧ CommandOut.state (values (command_out at_rest)) = STATE_STOP
  ∧ set_command_event at_rest = (Ok tt, at_rest).
Proof.
  split; [vm_compute; reflexivity|]. split; [vm_compute; reflexivity|].
  apply (at_rest_no_event at_rest "stop"); vm_compute; reflexivity.
Defined.

Lemma fsm_next_state_map_foreign (c s : string) :
  c ∈ ["start"; "stop"; "fault"] →
  startswith s c = false →
  ∃ sm, fsm_next_state_map !! c = Some sm ∧ sm !! s = None.
Proof.
  intros Hc Hpre. destruct fsm_next_state_map_lookup as (_ & Hst & Hsp & Hf).
  rewrite !elem_of_cons, elem_of_nil in Hc.
  destruct Hc as [Hx|[Hx|[Hx|[]]]]; subst c; eexists; (split; [eassumption|]).
  all: rewrite !lookup_insert; repeat case_decide; subst; try discriminate Hpre.
  all: apply lookup_empty.
Qed.

(** X12.  With the commanded state (START, STOP or FAULT) unchanged in
    this tick and the state machine outside the states of that command
    and outside the init states (or in [init_complete]), [set_command]
    triggers the event of the command by itself: the state machine
    enters the first state of the command, [state_log] says "Automatic
    transition from <state> state", and [fast_track] is set. *)
Theorem automatic_command_event (m : t) (c dst : string) (n : N) (drive : string) :
  cmd_int_to_name_map !! CommandOut.state (values (command_out m)) = Some c →
  command_entry c = Some (dst, n, drive) →
  changed CommandOut.state (command_out m) = false →
  startswith (state m) "init" = false ∨ state m = "init_complete" →
  startswith (state m) c = false →
  ∃ m', set_command_event m = (Ok tt, m')
        ∧ state m' = dst
        ∧ values (command_out m')
          = CommandOut.mk n ("Automatic transition from " +:+ state m +:+ " state")
              false false drive
        ∧ fast_track m' = true.
Proof.
  intros Hc He Hch Hinit Hrun.
  assert (Hin : c ∈ ["start"; "stop"; "fault"]).
  { unfold command_entry in He. rewrite !elem_of_cons.
    destruct (String.eqb_spec c "start"); [tauto|].
    destruct (String.eqb_spec c "stop"); [tauto|].
    destruct (String.eqb_spec c "fault"); [tauto|discriminate He]. }
  unfold set_command_event, bind, gets. rewrite Hch.
  unfold automatic_next_event, bind. rewrite (state_str_run m c Hc).
  destruct (fsm_next_state_map_foreign c (state m) Hin Hrun) as (sm & Hsm & Hnone).
  unfold getitem, gets. rewrite Hsm. unfold ret at 1. rewrite Hnone.
  unfold ret at 1. cbn [default].
  destruct (trigger_command_accepted c m
              ("Automatic transition from " +:+ state m +:+ " state")
              dst n drive He Hinit Hrun) as (m' & Ht & Hs' & Hv & _ & _ & _ & _).
  unfold try_except_else. rewrite Ht.
  eexists. split; [reflexivity|]. cbn.
  split; [exact Hs'|]. split; [exact Hv|reflexivity].
Qed.

Lemma automatic_command_event_witness :
  state init_done = "init_complete"
  ∧ CommandOut.state (values (command_out init_done)) = STATE_STOP
  ∧ ∃ m', set_command_event init_done = (Ok tt, m')
          ∧ state m' = "stop_1"
          ∧ CommandOut.state_log (values (command_out m'))
            = "Automatic transition from init_complete state"
          ∧ fast_track m' = true.
Proof.
  assert (Hs : state init_done = "init_complete") by (vm_compute; reflexivity).
  split; [exact Hs|]. split; [vm_compute; reflexivity|].
  destruct (automatic_command_event init_done "stop" "stop_1" STATE_STOP
              "SWITCH ON DISABLED")
    as (m' & Hr & Hst & Hv & Hft).
  - vm_compute. reflexivity.
  - reflexivity.
  - vm_compute. reflexivity.
  - right. exact Hs.
  - rewrite Hs. vm_compute. reflexivity.
  - exists m'. split; [exact Hr|]. split; [exact Hst|].
    split; [|exact Hft]. rewrite Hv, Hs. reflexivity.
Defined.

(** ** The external command *)

Ltac ext_cbn := cbn -[cmd_int_to_name_map lookup pretty N.eqb String.append changed].

Lemma set_command_external_latch (kw : CommandIn.t) (m : t) (name : string) :
  CommandIn.state_set (values (command_in m)) = false →
  CommandIn.state_set kw = true →
  cmd_int_to_name_map !! CommandIn.state_cmd kw = Some name →
  CommandIn.state_cmd kw ≠ CommandOut.state (values (command_out m)) →
  new_fault_fb m = false →
  set_command_external kw m
  = (Ok tt,
     command_out_update
       (λ c, CommandOut.set_state_log ("External command '" +:+ name +:+ "'")
               (CommandOut.set_state (CommandIn.state_cmd kw) c))
       (logger_log INFO ("State command set:  '" +:+ name +:+ "'")
          (command_taken kw m))).
Proof.
  intros Hold Hset Hname Hne Hnf. unfold new_fault_fb in Hnf.
  unfold set_command_external, set_command_handle_fault_fb,
    bind, gets, modify, rising_edge.
  ext_cbn. rewrite Hold, Hset, Hname. ext_cbn.
  rewrite (proj2 (N.eqb_neq _ _) Hne). ext_cbn. rewrite Hnf. ext_cbn.
  assert (Hch : changed CommandOut.state
                  (update (CommandOut.set_state (CommandIn.state_cmd kw))
                     (update (λ _, values (command_out m))
                        (advance (λ c, c) (command_out m)))) = true).
  { unfold changed. cbn. by apply bool_decide_eq_true. }
  rewrite Hch. unfold state_str, bind, gets, getitem. ext_cbn. rewrite Hname.
  reflexivity.
Qed.

(** X13.  [state_set] rises with a command that has a name and differs
    from the commanded state, and the feedback has no new fault: the
    command is latched into [command_out], with [state_log] "External
    command '<name>'", and logged at info level; [command_complete],
    [reset] and [drive_state] keep their values until the event of the
    command is triggered. *)
Theorem external_command_latched (kw : CommandIn.t) (m : t) (name : string) :
  CommandIn.state_set (values (command_in m)) = false →
  CommandIn.state_set kw = true →
  cmd_int_to_name_map !! CommandIn.state_cmd kw = Some name →
  CommandIn.state_cmd kw ≠ CommandOut.state (values (command_out m)) →
  new_fault_fb m = false →
  set_command_external kw m
  = (Ok tt,
     command_out_update
       (λ c, CommandOut.set_state_log ("External command '" +:+ name +:+ "'")
               (CommandOut.set_state (CommandIn.state_cmd kw) c))
       (logger_log INFO ("State command set:  '" +:+ name +:+ "'")
          (command_taken kw m))).
Proof.
  exact (set_command_external_latch kw m name).
Qed.

Lemma external_command_latched_witness :
  let r := set_command_external (command STATE_START) stopped in
  r.1 = Ok tt
  ∧ CommandOut.state (values (command_out r.2)) = STATE_START
  ∧ CommandOut.state_log (values (command_out r.2)) = "External command 'start'"
  ∧ CommandOut.command_complete (values (command_out r.2)) = true
  ∧ state r.2 = "stop_complete".
Proof.
  intros r. subst r.
  rewrite (external_command_latched (command STATE_START) stopped "start").
  - cbn [fst snd]. split; [reflexivity|]. repeat split; vm_compute; reflexivity.
  - vm_compute. reflexivity.
  - reflexivity.
  - vm_compute. reflexivity.
  - vm_compute. discriminate.
  - vm_compute. reflexivity.
Defined.

(** X14.  Without a rising edge of [state_set] (it was set before, or it
    is not set now) and without a new fault, the external [state_cmd] is
    ignored, whatever its value: [set_command] only takes the keywords
    into [command_in] and starts the cycle of [command_out]. *)
Theorem state_cmd_ignored_without_rising_edge (kw : CommandIn.t) (m : t) :
  CommandIn.state_set (values (command_in m)) = true ∨ CommandIn.state_set kw = false →
  new_fault_fb m = false →
  set_command_external kw m = (Ok tt, command_taken kw m).
Proof.
  intros Hedge Hnf. unfold new_fault_fb in Hnf.
  unfold set_command_external, set_command_handle_fault_fb,
    bind, gets, modify, rising_edge.
  ext_cbn.
  assert (He : negb (CommandIn.state_set (values (command_in m)))
               && CommandIn.state_set kw = false).
  { destruct Hedge as [H|H]; rewrite H; [reflexivity|apply andb_false_r]. }
  rewrite He. ext_cbn. rewrite Hnf. reflexivity.
Qed.

Lemma state_cmd_ignored_without_rising_edge_witness :
  let r := set_command_external (CommandIn.mk STATE_START false) stopped in
  r.1 = Ok tt
  ∧ command_out r.2 = mkInterface (values (command_out stopped)) (values (command_out stopped))
  ∧ logger r.2 = logger stopped.
Proof.
  intros r. subst r.
  rewrite (state_cmd_ignored_without_rising_edge (CommandIn.mk STATE_START false) stopped).
  - cbn [fst snd]. split; [reflexivity|]. split; vm_compute; reflexivity.
  - right. reflexivity.
  - vm_compute. reflexivity.
Defined.

(** X15.  [state_set] rises with a number that is no command: an error
    is logged, "Invalid state command, '<number>'", and the commanded
    state stays as it is; nothing is raised. *)
Theorem invalid_state_cmd_dropped (kw : CommandIn.t) (m : t) :
  CommandIn.state_set (values (command_in m)) = false →
  CommandIn.state_set kw = true →
  cmd_int_to_name_map !! CommandIn.state_cmd kw = None →
  new_fault_fb m = false →
  set_command_external kw m
  = (Ok tt,
     logger_log ERROR ("Invalid state command, '" +:+ pretty (CommandIn.state_cmd kw)
                       +:+ "'") (command_taken kw m)).
Proof.
  intros Hold Hset Hname Hnf. unfold new_fault_fb in Hnf.
  unfold set_command_external, set_command_handle_fault_fb,
    bind, gets, modify, rising_edge.
  ext_cbn. rewrite Hold, Hset, Hname. ext_cbn. rewrite Hnf. reflexivity.
Qed.

Lemma invalid_state_cmd_dropped_witness :
  let r := set_command_external (command 3) stopped in
  r.1 = Ok tt
  ∧ values (command_out r.2) = values (command_out stopped)
  ∧ logged ERROR (logger r.2) = ["Invalid state command, '3'"].
Proof.
  intros r. subst r.
  rewrite (invalid_state_cmd_dropped (command 3) stopped).
  - cbn [fst snd]. split; [reflexivity|]. split; vm_compute; reflexivity.
  - vm_compute. reflexivity.
  - reflexivity.
  - vm_compute. reflexivity.
  - vm_compute. reflexivity.
Defined.

(** X16.  A new fault in the feedback, without a rising edge of
    [state_set]: unless the commanded state is [STATE_FAULT] already, it
    becomes [STATE_FAULT] with [state_log] "Manager fault", and the
    warning "Manager/device fault; entering fault state" is logged. *)
Theorem new_fault_commands_fault (kw : CommandIn.t) (m : t) :
  CommandIn.state_set (values (command_in m)) = true ∨ CommandIn.state_set kw = false →
  new_fault_fb m = true →
  set_command_external kw m
  = (Ok tt,
     if N.eqb (CommandOut.state (values (command_out m))) STATE_FAULT then
       command_taken kw m
     else
       command_out_update
         (λ c, CommandOut.set_state_log "Manager fault"
                 (CommandOut.set_state STATE_FAULT c))
         (logger_log WARNING "Manager/device fault; entering fault state"
            (command_taken kw m))).
Proof.
  intros Hedge Hnf. unfold new_fault_fb in Hnf.
  apply andb_prop in Hnf as Hnf2. destruct Hnf2 as [Hf Hch].
  unfold set_command_external, set_command_handle_fault_fb,
    bind, gets, modify, rising_edge.
  ext_cbn.
  assert (He : negb (CommandIn.state_set (values (command_in m)))
               && CommandIn.state_set kw = false).
  { destruct Hedge as [H|H]; rewrite H; [reflexivity|apply andb_false_r]. }
  rewrite He. ext_cbn. rewrite Hnf. ext_cbn.
  destruct (N.eqb _ _); ext_cbn; [reflexivity|]. rewrite Hch. reflexivity.
Qed.

Lemma new_fault_commands_fault_witness :
  let r := set_command_external no_command fault_in_stop_complete in
  r.1 = Ok tt
  ∧ CommandOut.state (values (command_out r.2)) = STATE_FAULT
  ∧ CommandOut.state_log (values (command_out r.2)) = "Manager fault"
  ∧ logged WARNING (logger r.2) = ["Manager/device fault; entering fault state"].
Proof.
  intros r. subst r.
  rewrite (new_fault_commands_fault no_command fault_in_stop_complete).
  - cbn [fst snd]. split; [reflexivity|]. repeat split; vm_compute; reflexivity.
  - right. reflexivity.
  - vm_compute. reflexivity.
Defined.

(** ** The drives in the feedback of one tick *)

Section FeedbackLoop.
Variable reinit : FeedbackOut.t → FeedbackOut.t.
Variable dev_fb : Device.t → DevFeedbackOut.t.


Lemma fb_loop_fault_devs devs l :
  l_fault_devs (foldl (get_feedback_dev dev_fb) l devs)
  = (l_fault_devs l ++ fault_devs_of dev_fb devs)%list.
Proof.
  revert l. induction devs as [|dev devs IH]; intros l; simpl.
  - by rewrite app_nil_r.
  - rewrite IH. unfold fault_devs_of. simpl.
    destruct (DevFeedbackOut.fault (dev_fb dev)); simpl; [|done].
    by rewrite <- app_assoc.
Qed.

Lemma fb_loop_waiting_devs devs l :
  l_waiting_devs (foldl (get_feedback_dev dev_fb) l devs)
  = (l_waiting_devs l ++ waiting_devs_of dev_fb devs)%list.
Proof.
  revert l. induction devs as [|dev devs IH]; intros l; simpl.
  - by rewrite app_nil_r.
  - rewrite IH. unfold waiting_devs_of. simpl.
    destruct (DevFeedbackOut.goal_reached (dev_fb dev)); simpl; [done|].
    by rewrite <- app_assoc.
Qed.

Lemma fb_loop_devs devs l :
  FeedbackOut.devs (values (l_mgr_fb_out (foldl (get_feedback_dev dev_fb) l devs)))
  = foldl (λ mp dev, <[dev_prefix dev (Device.slug_separator dev) := dev_fb dev]> mp)
      (FeedbackOut.devs (values (l_mgr_fb_out l))) devs.
Proof.
  revert l. induction devs as [|dev devs IH]; intros l; simpl; [done|].
  by rewrite IH.
Qed.

Lemma get_feedback_out (m : t) :
  let l := fb_loop_end reinit dev_fb m in
  devices (get_feedback reinit dev_fb m) = l_devices l
  ∧ FeedbackOut.devs (values (feedback_out (get_feedback reinit dev_fb m)))
    = FeedbackOut.devs (values (l_mgr_fb_out l))
  ∧ FeedbackOut.goal_reason (values (feedback_out (get_feedback reinit dev_fb m)))
    = (if truth (l_waiting_devs l) then merge_device_descriptions (l_waiting_devs l)
       else if CommandOut.command_complete (values (command_out m)) then ""
            else "Waiting on device manager internal transitions").
Proof.
  intros l. unfold get_feedback. fold (fb_loop_end reinit dev_fb m). fold l.
  destruct (CommandOut.command_complete (values (command_out m))); simpl;
    destruct (N.eqb (CommandOut.state (values (command_out m))) STATE_FAULT);
    destruct (l_new_fault l); simpl;
    destruct (truth (l_waiting_devs l)); simpl;
    repeat match goal with
      | |- context [if ?b then _ else _] => destruct b; simpl
      end; done.
Qed.


Lemma foldl_insert_lookup (devs : list Device.t) (mp : gmap string DevFeedbackOut.t)
    (dev : Device.t) :
  NoDup ((λ d, dev_prefix d (Device.slug_separator d)) <$> devs) →
  dev ∈ devs →
  foldl (λ mp d, <[dev_prefix d (Device.slug_separator d) := dev_fb d]> mp) mp devs
  !! dev_prefix dev (Device.slug_separator dev) = Some (dev_fb dev).
Proof.
  revert mp. induction devs as [|d devs IH]; intros mp Hnd Hin.
  - by apply elem_of_nil in Hin.
  - simpl in *. apply NoDup_cons in Hnd as [Hnotin Hnd].
    apply elem_of_cons in Hin as [Heq|Hin]; [subst d|by apply IH].
    clear IH Hnd.
    assert (Hl : ∀ mp0 : gmap string DevFeedbackOut.t,
      mp0 !! dev_prefix dev (Device.slug_separator dev) = Some (dev_fb dev) →
      foldl (λ mp d0, <[dev_prefix d0 (Device.slug_separator d0) := dev_fb d0]> mp)
        mp0 devs
      !! dev_prefix dev (Device.slug_separator dev) = Some (dev_fb dev)).
    { induction devs as [|d' devs IH']; intros mp0 H0; [done|].
      simpl. apply IH'.
      - intros Hx. apply Hnotin. simpl. by apply list_elem_of_further.
      - rewrite lookup_insert_ne; [done|].
        intros Heq. apply Hnotin. simpl. rewrite <- Heq. apply list_elem_of_here. }
    apply Hl, lookup_insert_eq.
Qed.

(** X18.  When no two drives have the same address prefix, the manager's
    feedback holds, under the prefix of each drive, the feedback that
    this drive has just computed. *)
Theorem get_feedback_copies_drive_feedback (m : t) (dev : Device.t) :
  NoDup ((λ d, dev_prefix d (Device.slug_separator d)) <$> devices m) →
  dev ∈ devices m →
  FeedbackOut.devs (values (feedback_out (get_feedback reinit dev_fb m)))
  !! dev_prefix dev (Device.slug_separator dev) = Some (dev_fb dev).
Proof.
  intros Hnd Hin. destruct (get_feedback_out m) as (_ & H & _). rewrite H.
  unfold fb_loop_end. rewrite fb_loop_devs. by apply foldl_insert_lookup.
Qed.

(** X19.  The [goal_reason] of the feedback: when some drive has not
    reached its goal, the merged reasons of those drives, whether the
    command is complete or not; otherwise empty when the command is
    complete and "Waiting on device manager internal transitions" when
    it is not.  The count "Waiting on <n> devices" that the code first
    puts there is always overwritten. *)
Theorem goal_reason_report (m : t) :
  FeedbackOut.goal_reason (values (feedback_out (get_feedback reinit dev_fb m)))
  = (if truth (waiting_devs_of dev_fb (devices m))
     then merge_device_descriptions (waiting_devs_of dev_fb (devices m))
     else if CommandOut.command_complete (values (command_out m)) then ""
          else "Waiting on device manager internal transitions").
Proof.
  destruct (get_feedback_out m) as (_ & _ & H). rewrite H.
  unfold fb_loop_end. by rewrite fb_loop_waiting_devs.
Qed.

(** X20.  Outside [STATE_FAULT], when some drive newly reports a fault,
    [fault_desc] is the merged fault descriptions of all the drives that
    report a fault in this tick, those whose fault is not new
    included. *)
Theorem new_fault_description (m : t) :
  CommandOut.state (values (command_out m)) ≠ STATE_FAULT →
  existsb (new_fault_of dev_fb) (devices m) = true →
  FeedbackOut.fault_desc (values (feedback_out (get_feedback reinit dev_fb m)))
  = merge_device_descriptions (fault_devs_of dev_fb (devices m)).
Proof.
  intros Hs Hn.
  destruct (get_feedback_spec reinit dev_fb m) as (_&_&_&_&_&_&_&_&_&Hd&_).
  rewrite Hd. unfold fault_desc_fb. rewrite (proj2 (N.eqb_neq _ _) Hs), Hn.
  unfold fb_loop_end. by rewrite fb_loop_fault_devs.
Qed.

End FeedbackLoop.

Lemma get_feedback_copies_drive_feedback_witness :
  FeedbackOut.devs
    (values (feedback_out (get_feedback reset_to_defaults (drive_at "SWITCH ON DISABLED")
                             (init [drive_a]))))
  !! "d0_1_" = Some (drive_at "SWITCH ON DISABLED" drive_a).
Proof.
  apply (get_feedback_copies_drive_feedback reset_to_defaults
           (drive_at "SWITCH ON DISABLED") (init [drive_a]) drive_a).
  - cbn. apply NoDup_singleton.
  - cbn. apply list_elem_of_here.
Defined.

Lemma new_fault_description_witness :
  let m := after reset_to_defaults [drive_a] cold_init in
  CommandOut.state (values (command_out m)) = STATE_STOP
  ∧ FeedbackOut.fault_desc
      (values (feedback_out (get_feedback reset_to_defaults drive_in_fault m)))
    = "Incremental sensor 1 fault (drive_a)".
Proof.
  intros m.
  assert (Hs : CommandOut.state (values (command_out m)) = STATE_STOP)
    by (vm_compute; reflexivity).
  split; [exact Hs|].
  rewrite (new_fault_description reset_to_defaults drive_in_fault m).
  - vm_compute. reflexivity.
  - rewrite Hs. discriminate.
  - vm_compute. reflexivity.
Defined.

(** ** The command of the drives *)

Ltac frame_modify_before_drives H :=
  apply preserves_modify; intros;
  destruct H as (H1 & H2 & H3 & H4 & H5);
  unfold command_out_update, logger_log;
  rewrite ?H1, ?H2, ?H3, ?H4, ?H5; reflexivity.

Lemma trigger_frame {B} (proj : t → B) event msg :
  untouched_before_drives proj → preserves proj (trigger event msg).
Proof.
  intros H.
  unfold trigger, on_before, on_enter, on_change_state,
    on_before_init_command, on_before_init_complete, on_before_fault_command,
    on_before_start_command, on_before_start_2, on_before_start_complete,
    on_before_stop_command, on_before_stop_complete,
    on_enter_init_1, on_enter_init_complete, on_enter_fault_1, on_enter_fault_complete,
    on_enter_start_1, on_enter_start_2, on_enter_start_complete, on_enter_stop_1,
    on_enter_stop_complete, fsm_check_command, fsm_set_drive_state_cmd, fsm_finalize_command.
  frame. all: frame_modify_before_drives H.
Qed.

Lemma set_command_before_drives_frame {B} (proj : t → B) kw :
  untouched_before_drives proj →
  preserves proj (set_command_external kw ;;; set_command_event ;;;
                  ch <- gets (λ m, changed CommandOut.state_log (command_out m)) ;;
                  if ch : bool then
                    modify (λ m, logger_log DEBUG ("State:  "
                              +:+ CommandOut.state_log (values (command_out m))) m)
                  else ret tt).
Proof.
  intros H.
  unfold set_command_external, set_command_event,
    set_command_handle_fault_fb, automatic_next_event, state_str.
  frame.
  all: try (apply trigger_frame; exact H).
  all: frame_modify_before_drives H.
Qed.

Lemma bind_ok {S A C} (c : M S A) (k : A → M S C) (s s' : S) (r : C) :
  bind c k s = (Ok r, s') → ∃ a s1, c s = (Ok a, s1) ∧ k a s1 = (Ok r, s').
Proof.
  unfold bind. destruct (c s) as [[a|e] s1]; [|discriminate]. intros H. by exists a, s1.
Qed.

Lemma set_command_devices (kw : CommandIn.t) (m m' : t) :
  set_command kw m = (Ok tt, m') →
  devices m'
  = drive_commanded (CommandOut.drive_state (values (command_out m'))) <$> devices m.
Proof.
  intros H. unfold set_command in H.
  pose proof (set_command_before_drives_frame devices kw) as Hf.
  set (pre := set_command_external kw ;;; set_command_event ;;;
              ch <- gets (λ m, changed CommandOut.state_log (command_out m)) ;;
              if ch : bool then
                modify (λ m, logger_log DEBUG ("State:  "
                          +:+ CommandOut.state_log (values (command_out m))) m)
              else ret tt) in *.
  assert (Heq : ∀ s, (set_command_external kw ;;; set_command_event ;;;
              ch <- gets (λ m, changed CommandOut.state_log (command_out m)) ;;
              (if ch : bool then
                modify (λ m, logger_log DEBUG ("State:  "
                          +:+ CommandOut.state_log (values (command_out m))) m)
              else ret tt) ;;; modify set_drive_command) s
              = (pre ;;; modify set_drive_command) s).
  { intros s. unfold pre, bind.
    destruct (set_command_external kw s) as [[[]|e] s1]; [|done].
    destruct (set_command_event s1) as [[[]|e] s2]; [|done].
    unfold gets. destruct (changed _ _); reflexivity. }
  rewrite Heq in H. apply bind_ok in H as (a & s1 & Hpre & Hm).
  specialize (Hf ltac:(by repeat split) m). rewrite Hpre in Hf. simpl in Hf.
  unfold modify in Hm. inversion Hm; subst m'. unfold set_drive_command. simpl.
  by rewrite Hf.
Qed.

(** X21.  When [set_command] returns, the manager has the same drives as
    before, in the same order; every CiA402 drive has the manager's
    [drive_state] as its state command, and the other drives are as they
    were. *)
Theorem drives_commanded_drive_state (kw : CommandIn.t) (m m' : t) :
  set_command kw m = (Ok tt, m') →
  devices m'
  = drive_commanded (CommandOut.drive_state (values (command_out m'))) <$> devices m.
Proof.
  exact (set_command_devices kw m m').
Qed.

Lemma drives_commanded_drive_state_witness :
  let m' := (set_command (command STATE_START) stopped).2 in
  CommandOut.drive_state (values (command_out m')) = "SWITCHED ON"
  ∧ Device.command_state <$> devices m' = ["SWITCHED ON"].
Proof.
  intros m'.
  assert (Hd : CommandOut.drive_state (values (command_out m')) = "SWITCHED ON")
    by (vm_compute; reflexivity).
  split; [exact Hd|].
  rewrite (drives_commanded_drive_state (command STATE_START) stopped m')
    by (vm_compute; reflexivity).
  rewrite Hd. vm_compute. reflexivity.
Defined.

(** ** The state machine and the command stay consistent *)

Ltac fsm_cbn :=
  cbn -[cmd_int_to_name_map cmd_name_to_int_map lookup pretty N.eqb String.append
        changed startswith is_complete drive_state_of query_devices truth
        fsm_check_drive_goal_state fsm_check_devices_online fsm_command_from_event].

Lemma GSM_dst_cases event src dst :
  GSM_dst event src = Some dst →
  (event, src, dst) ∈ GSM_events ∨ (event, "*", dst) ∈ GSM_events.
Proof.
  unfold GSM_dst. cbv zeta.
  destruct (find _ GSM_events) as [[[ev s] d]|] eqn:Hf.
  - intros [= <-]. apply find_some in Hf as [Hin Hb].
    apply andb_prop in Hb as [H1 H2]. cbn [fst snd] in H1, H2.
    apply String.eqb_eq in H1, H2. subst. left. apply list_elem_of_In. exact Hin.
  - clear Hf. destruct (find _ GSM_events) as [[[ev s] d]|] eqn:Hg; cbn; [|done].
    intros [= <-]. apply find_some in Hg as [Hin Hb].
    apply andb_prop in Hb as [H1 H2]. cbn [fst snd] in H1, H2.
    apply String.eqb_eq in H1, H2. subst. right. apply list_elem_of_In. exact Hin.
Qed.

Lemma fsm_check_command_shape (e : Event.t) (m : t) :
  match fsm_check_command e m with
  | (Raise ex, m') => (∃ k, ex = KeyError k) ∧ m' = m
  | (Ok (b, e'), m') =>
      Event.dst e' = Event.dst e ∧ state m' = state m ∧ CommandOut.drive_state (values (command_out m')) = CommandOut.drive_state (values (command_out m))
      ∧ checked e b m m'
  end.
Proof.
  unfold fsm_check_command, bind, getitem, checked.
  destruct (cmd_name_to_int_map !! fsm_command_from_event e) as [n|] eqn:Hn;
    [|split; [by eexists|done]].
  unfold ret at 1.
  destruct (_ && negb (N.eqb n STATE_INIT)) eqn:H1.
  - unfold modify, gets. fsm_cbn. destruct (changed _ _); fsm_cbn; tauto.
  - destruct (_ && startswith (Event.src e) _) eqn:H2.
    + fsm_cbn. apply andb_prop in H2 as [_ H2]. tauto.
    + fsm_cbn. done.
Qed.

Lemma on_before_shape (e : Event.t) (m : t) :
  match on_before e m with
  | (Raise ex, m') => (∃ k, ex = KeyError k) ∧ m' = m
  | (Ok (b, e'), m') =>
      Event.dst e' = Event.dst e ∧ state m' = state m ∧ CommandOut.drive_state (values (command_out m')) = CommandOut.drive_state (values (command_out m))
      ∧ if is_command_event (Event.event e) then checked e b m m'
        else CommandOut.state (values (command_out m')) = CommandOut.state (values (command_out m)) ∧ CommandOut.command_complete (values (command_out m')) = CommandOut.command_complete (values (command_out m))
  end.
Proof.
  unfold on_before, is_command_event.
  pose proof (fsm_check_command_shape e m) as Hc.
  repeat match goal with
         | |- context [if String.eqb ?a ?b then _ else _] =>
             destruct (String.eqb_spec a b) as [Heq|_];
             [try rewrite Heq; cbn [String.eqb Ascii.eqb Bool.eqb orb]|]
         end; cbn [orb].
  all: try exact Hc.
  all: unfold on_before_init_complete, on_before_fault_command, on_before_start_2,
    on_before_start_complete, on_before_stop_complete, bind, gets, ret.
  all: fsm_cbn.
  all: try done.
  all: try (destruct (truth _); fsm_cbn; done).
  all: destruct (fsm_check_command e m) as [[[b e']|ex] m']; [|exact Hc].
  all: destruct b; fsm_cbn; exact Hc.
Qed.


Lemma enter_shape (e : Event.t) (m : t) :
  Event.dst e ∈ GSM_events.*2 →
  (enter e m).1 = Ok tt
  ∧ state (enter e m).2 = Event.dst e
  ∧ CommandOut.state (values (command_out (enter e m).2))
    = (if String.eqb (Event.dst e) "init_complete" then STATE_STOP else CommandOut.state (values (command_out m)))
  ∧ CommandOut.command_complete (values (command_out (enter e m).2)) = is_complete (Event.dst e) || CommandOut.command_complete (values (command_out m))
  ∧ CommandOut.drive_state (values (command_out (enter e m).2))
    = (if String.eqb (Event.dst e) "init_command" || String.eqb (Event.dst e) "init_1"
          || is_complete (Event.dst e)
       then CommandOut.drive_state (values (command_out m)) else drive_state_of (Event.dst e)).
Proof.
  destruct e as [ev src dst msg rst]. cbn [Event.dst].
  unfold GSM_events. cbn [fmap list_fmap snd].
  rewrite !elem_of_cons, elem_of_nil. intros Hd.
  repeat destruct Hd as [Hd|Hd]; try done; subst dst.
  all: unfold enter, on_enter, on_change_state,
    on_enter_init_1, on_enter_init_complete, on_enter_fault_1, on_enter_fault_complete,
    on_enter_start_1, on_enter_start_2, on_enter_start_complete, on_enter_stop_1,
    on_enter_stop_complete, fsm_set_drive_state_cmd, fsm_finalize_command,
    bind, gets, modify, ret.
  all: fsm_cbn.
  all: destruct (changed _ _); fsm_cbn.
  all: repeat split; try reflexivity.
Qed.

Lemma GSM_rows event src dst :
  GSM_dst event src = Some dst →
  src ∈ GSM_states →
  (event, src, dst) ∈
    [ ("init_command", "init_command", "init_1");
      ("init_complete", "init_1", "init_complete");
      ("fault_complete", "fault_1", "fault_complete");
      ("start_2", "start_1", "start_2");
      ("start_complete", "start_2", "start_complete");
      ("stop_complete", "stop_1", "stop_complete") ]
  ∨ (event, dst) ∈ [ ("fault_command", "fault_1"); ("start_command", "start_1");
                      ("stop_command", "stop_1") ].
Proof.
  intros Hd Hs. apply GSM_dst_cases in Hd. unfold GSM_states, GSM_events in *.
  cbn [fmap list_fmap snd] in Hs.
  rewrite !elem_of_cons, !elem_of_nil in Hd.
  rewrite !elem_of_cons, elem_of_nil in Hs.
  rewrite !elem_of_cons, !elem_of_nil.
  destruct Hd as [Hd|Hd];
    repeat (destruct Hd as [Hd|Hd]; [simplify_eq; try (by eauto 12)|]); try done.
  all: exfalso; repeat (destruct Hs as [Hs|Hs]; [done|]); done.
Qed.

Lemma start_complete_only (s : string) :
  s ∈ GSM_states → startswith s "start" = true → is_complete s = true →
  s = "start_complete".
Proof.
  unfold GSM_states, GSM_events. cbn [fmap list_fmap snd].
  rewrite !elem_of_cons, elem_of_nil. intros Hs.
  repeat (destruct Hs as [Hs|Hs]; [subst; vm_compute; by intros|]); done.
Qed.

Ltac row_cases Hrow :=
  rewrite !elem_of_cons, !elem_of_nil in Hrow;
  destruct Hrow as [Hrow|Hrow]; repeat (destruct Hrow as [Hrow|Hrow]); try done;
  simplify_eq.

Ltac closed_in H :=
  cbv [is_command_event is_complete drive_state_of String.eqb Ascii.eqb Bool.eqb
       orb andb negb] in H.

Lemma trigger_shape event msg m :
  fsm_consistent m →
  fsm_consistent (trigger event msg m).2
  ∧ (∀ ex, (trigger event msg m).1 = Raise ex → is_Exception ex = true)
  ∧ (handled (trigger event msg m).1 →
     (event = "start_command" ∨ start_completed m) →
     (CommandOut.state (values (command_out m)) = STATE_START → event ≠ "stop_complete" ∧ event ≠ "fault_complete") →
     start_completed (trigger event msg m).2).
Proof.
  intros (H1 & H3 & H2 & H5).
  destruct (trigger event msg m) as [res m'] eqn:Hr. cbn [fst snd].
  unfold trigger, bind at 1, gets in Hr.
  destruct (GSM_dst event (state m)) as [dst|] eqn:Hdst.
  2: { unfold raise in Hr. inversion Hr; subst res m'; clear Hr.
       split; [done|]. split; [intros ex0 Hx; inversion Hx; reflexivity|].
       intros Hh. destruct (Hh _ eq_refl) as [? [=]]. }
  pose proof (GSM_rows _ _ _ Hdst H3) as Hrow.
  pose proof (on_before_shape (Event.mk event (state m) dst msg None) m) as Hb.
  unfold bind at 1 in Hr.
  destruct (on_before _ m) as [[[b e']|ex] m1].
  2: { destruct Hb as [[k ->] ->]. inversion Hr; subst res m'; clear Hr.
       split; [done|]. split; [intros ex0 Hx; inversion Hx; subst; reflexivity|].
       intros Hh. destruct (Hh _ eq_refl) as [? [=]]. }
  destruct Hb as (Hd' & Hs1 & Hds1 & Hev). cbn [Event.dst Event.event Event.src] in *.
  assert (Hdin : dst ∈ GSM_events.*2).
  { unfold GSM_events. cbn [fmap list_fmap snd].
    rewrite !elem_of_cons, !elem_of_nil in Hrow. rewrite !elem_of_cons.
    destruct Hrow as [Hrow|Hrow];
      repeat (destruct Hrow as [Hrow|Hrow]; [simplify_eq; by eauto 12|]); done. }
  pose proof (enter_shape e' m1) as He. unfold enter in He.
  rewrite Hd' in He. specialize (He Hdin).
  destruct b; cbn [negb fst snd] in Hr.
  2: { unfold raise in Hr. inversion Hr; subst res m'; clear Hr He.
       split; [|split; [intros ex0 Hx; inversion Hx; reflexivity|]].
       - unfold fsm_consistent. rewrite Hs1, Hds1.
         destruct (is_command_event event); unfold checked in Hev.
         + destruct Hev as [-> [->| [-> _]]]; repeat split; done.
         + destruct Hev as [-> ->]. done.
       - intros _ H4 _ Hc Hcc. rewrite Hs1.
         destruct (is_command_event event) eqn:Hce; unfold checked in Hev.
         + destruct Hev as [Hk [Hk'|[Hk' Hsw]]]; [by rewrite Hk' in Hc|].
           rewrite Hk in Hcc. rewrite Hk' in Hc.
           destruct H4 as [->|H4]; [|by apply H4].
           destruct (GSM_dst_command (state m)) as (Hx & _).
           rewrite Hx in Hdst. injection Hdst as <-.
           change (fsm_command_from_event _) with "start" in Hsw.
           apply start_complete_only; [done|done|congruence].
         + destruct Hev as [Hk' Hk]. rewrite Hk in Hcc. rewrite Hk' in Hc.
           destruct H4 as [->|H4]; [discriminate Hce|by apply H4]. }
  clear Hd' Hdst.
  assert (Hstop : is_Some (cmd_int_to_name_map !! STATE_STOP))
    by (exists "stop"; vm_compute; reflexivity).
  destruct (String.eqb_spec (state m) dst) as [Hsd|Hsd].
  { unfold ret in Hr. inversion Hr; subst res m'; clear Hr He.
    split; [|split; [intros ex0 Hx; discriminate Hx|]].
    - unfold fsm_consistent. rewrite Hs1, Hds1.
      row_cases Hrow; try congruence.
      all: closed_in Hev; unfold checked in Hev; destruct Hev as [Hk1 Hk2].
      all: apply cmd_maps_inverse in Hk2.
      all: rewrite Hk1, Hk2.
      all: split; [by eexists|]; split; [exact H3|]; split; [|exact H5].
      all: match goal with Hst : state _ = String _ _ |- _ => rewrite Hst; reflexivity end.
    - intros _ H4 Hne Hc Hcc.
      row_cases Hrow; try congruence.
      all: closed_in Hev; unfold checked in Hev; destruct Hev as [Hk1 Hk2].
      all: congruence. }
  rewrite Hr in He. cbn [fst snd] in He. clear Hr.
  destruct He as (-> & Hes & Hec & Hecc & Hed).
  split; [|split; [intros ex0 Hx; discriminate Hx|]].
  - unfold fsm_consistent. rewrite Hes, Hec, Hecc, Hed, Hds1, H5.
    clear Hes Hec Hecc Hed.
    row_cases Hrow.
    all: closed_in Hev; unfold checked in Hev; destruct Hev as [Hk1 Hk2].
    all: try (apply cmd_maps_inverse in Hk2).
    all: try rewrite Hk1; try rewrite Hk2.
    all: try rewrite H2.
    all: try match goal with Hst : state _ = String _ _ |- _ => rewrite Hst end.
    all: cbv [is_complete drive_state_of String.eqb Ascii.eqb Bool.eqb orb andb negb].
    all: split; [first [exact H1|exact Hstop|by eexists]|].
    all: split; [apply list_elem_of_further; exact Hdin|].
    all: split; reflexivity.
  - intros _ H4 Hne Hc Hcc. rewrite Hes. rewrite Hec in Hc. rewrite Hecc in Hcc.
    clear Hes Hec Hecc Hed.
    row_cases Hrow.
    all: closed_in Hev; unfold checked in Hev; destruct Hev as [Hk1 Hk2].
    all: closed_in Hc; closed_in Hcc.
    all: try reflexivity; try discriminate Hc; try congruence.
    all: try (rewrite Hk1 in Hc; destruct (Hne Hc) as [Hn1 Hn2]; exfalso;
              first [apply Hn1; reflexivity | apply Hn2; reflexivity]).
    all: rewrite Hk2, H2 in Hcc.
    all: match goal with Hst : state _ = String _ _ |- _ => rewrite Hst in Hcc end.
    all: discriminate Hcc.
Qed.

Lemma automatic_next_event_run (m : t) (c : string) :
  cmd_int_to_name_map !! CommandOut.state (values (command_out m)) = Some c →
  ∃ next, automatic_next_event m = (Ok next, m)
          ∧ ∀ ev, next = Some ev → c = "start" →
                  ev ≠ "stop_complete" ∧ ev ≠ "fault_complete".
Proof.
  intros Hc. unfold automatic_next_event, bind. rewrite (state_str_run m c Hc).
  destruct fsm_next_state_map_lookup as (Hi & Hst & Hsp & Hf).
  apply cmd_int_to_name_cases in Hc as [[_ Hx]|[[_ Hx]|[[_ Hx]|[_ Hx]]]]; subst c;
    unfold getitem, gets; rewrite ?Hi, ?Hst, ?Hsp, ?Hf; unfold ret at 1;
    (eexists; split; [reflexivity|]); intros ev Hev Hcs; try discriminate Hcs.
  revert Hev. rewrite !lookup_insert, lookup_empty.
  repeat case_decide; cbn; intros [= <-]; split; discriminate.
Qed.

Lemma classic_handled (res : result unit) : handled res ∨ ¬ handled res.
Proof.
  destruct res as [[]|ex].
  - left. intros ex Hx. discriminate Hx.
  - destruct ex; [right|left|right|right|right].
    2: { intros ex Hx. inversion Hx. by eexists. }
    all: intros Hh; destruct (Hh _ eq_refl) as [? Hx]; discriminate Hx.
Qed.

Lemma set_command_event_shape (m : t) :
  fsm_consistent m →
  start_completed m ∨ changed CommandOut.state (command_out m) = true →
  fsm_consistent (set_command_event m).2
  ∧ (∀ ex, (set_command_event m).1 = Raise ex → is_Exception ex = true)
  ∧ ((set_command_event m).1 = Ok tt → start_completed (set_command_event m).2).
Proof.
  intros Hm H4.
  destruct (set_command_event m) as [res m'] eqn:Hr. cbn [fst snd].
  unfold set_command_event, bind at 1, gets in Hr.
  pose proof Hm as (H1 & _). destruct H1 as [c Hc].
  destruct (changed CommandOut.state (command_out m)) eqn:Hch.
  - unfold bind at 1, bind at 1 in Hr. rewrite (state_str_run m c Hc) in Hr.
    unfold bind at 1, modify at 1, bind at 1 in Hr.
    set (m2 := logger_log DEBUG _ m) in Hr.
    set (msg := CommandOut.state_log _) in Hr.
    destruct (trigger_shape (c +:+ "_command") msg m2 Hm) as (Ht1 & Ht2 & Ht3).
    assert (Hstart : start_completed (trigger (c +:+ "_command") msg m2).2
                     ∨ ¬ handled (trigger (c +:+ "_command") msg m2).1).
    { destruct (classic_handled (trigger (c +:+ "_command") msg m2).1) as [Hh|Hh];
        [left|by right].
      apply Ht3; [exact Hh| |].
      - apply cmd_int_to_name_cases in Hc as [[Hn Hx]|[[Hn Hx]|[[Hn Hx]|[Hn Hx]]]];
          subst c; [right|right|left; reflexivity|right].
        all: intros Hs; cbn in Hs; rewrite Hn in Hs; discriminate Hs.
      - intros _.
        apply cmd_int_to_name_cases in Hc as [[Hn Hx]|[[Hn Hx]|[[Hn Hx]|[Hn Hx]]]];
          subst c; split; discriminate. }
    unfold try_except_else in Hr.
    destruct (trigger (c +:+ "_command") msg m2) as [[[]|ex] m3]; cbn [fst snd] in *.
    + inversion Hr; subst res m'. split; [exact Ht1|]. split; [discriminate|].
      intros _. destruct Hstart as [Hs|Hs]; [exact Hs|].
      exfalso. apply Hs. intros ex Hx. discriminate Hx.
    + destruct ex; inversion Hr; subst res m'; clear Hr.
      all: split; [exact Ht1|]; split;
        [intros ex Hx; inversion Hx; subst; by apply Ht2|].
      all: try (intros Hx; discriminate Hx).
      intros _. destruct Hstart as [Hs|Hs]; [exact Hs|].
      exfalso. apply Hs. intros ex Hx. inversion Hx. by eexists.
  - destruct H4 as [H4|H4]; [|discriminate H4].
    destruct (automatic_next_event_run m c Hc) as (next & Hn & Hev).
    unfold bind at 1 in Hr. rewrite Hn in Hr.
    destruct next as [event|].
    2: { unfold ret in Hr. injection Hr as <- <-.
         split; [exact Hm|]. split; [intros ex Hx; discriminate Hx|intros _; exact H4]. }
    unfold bind at 1, try_except_else in Hr.
    set (msg := "Automatic transition from " +:+ _ +:+ " state") in Hr.
    destruct (trigger_shape event msg m Hm) as (Ht1 & Ht2 & Ht3).
    assert (Hstart : handled (trigger event msg m).1 →
                     start_completed (trigger event msg m).2).
    { intros Hh. apply Ht3; [exact Hh|by right|].
      intros Hs. apply (Hev event eq_refl).
      apply cmd_int_to_name_cases in Hc as [[Hn' Hx]|[[Hn' Hx]|[[Hn' Hx]|[Hn' Hx]]]];
        subst c; try reflexivity; rewrite Hn' in Hs; discriminate Hs. }
    destruct (trigger event msg m) as [[[]|ex] m3]; cbn [fst snd] in *.
    + inversion Hr; subst res m'. split; [exact Ht1|]. split; [discriminate|].
      intros _. apply Hstart. intros ex Hx. discriminate Hx.
    + destruct ex; inversion Hr; subst res m'; clear Hr.
      all: split; [exact Ht1|]; split;
        [intros ex Hx; inversion Hx; subst; by apply Ht2|].
      all: try (intros Hx; discriminate Hx).
      intros _. apply Hstart. intros ex Hx. inversion Hx. by eexists.
Qed.

Lemma set_command_external_facts (kw : CommandIn.t) (m : t) :
  state (set_command_external kw m).2 = state m
  ∧ CommandOut.command_complete (values (command_out (set_command_external kw m).2)) = CommandOut.command_complete (values (command_out m))
  ∧ CommandOut.drive_state (values (command_out (set_command_external kw m).2)) = CommandOut.drive_state (values (command_out m))
  ∧ CommandOut.state (values_old (command_out (set_command_external kw m).2)) = CommandOut.state (values (command_out m))
  ∧ (CommandOut.state (values (command_out (set_command_external kw m).2)) = CommandOut.state (values (command_out m))
     ∨ CommandOut.state (values (command_out (set_command_external kw m).2)) = STATE_FAULT
     ∨ is_Some (cmd_int_to_name_map !! CommandOut.state (values (command_out (set_command_external kw m).2))))
  ∧ (∀ ex, (set_command_external kw m).1 = Raise ex → is_Exception ex = true).
Proof.
  destruct m as [st fb ci [[cs sl cc rs ds] coo] devs ft sd lg slp].
  unfold set_command_external, set_command_handle_fault_fb, state_str,
    bind, gets, modify, getitem, ret, raise, rising_edge.
  ext_cbn.
  repeat match goal with
         | |- context [if ?b then _ else _] => destruct b eqn:?; ext_cbn
         | |- context [match ?o with Some _ => _ | None => _ end] =>
             destruct o eqn:?; ext_cbn
         end.
  all: repeat split; try reflexivity.
  all: try (intros ex Hx; inversion Hx; reflexivity).
  all: try (left; reflexivity).
  all: try (right; left; reflexivity).
  all: try (right; right; eexists; eassumption).
  all: congruence.
Qed.

Lemma set_command_external_shape (kw : CommandIn.t) (m : t) :
  fsm_consistent m → start_completed m →
  fsm_consistent (set_command_external kw m).2
  ∧ (∀ ex, (set_command_external kw m).1 = Raise ex → is_Exception ex = true)
  ∧ (start_completed (set_command_external kw m).2
     ∨ changed CommandOut.state (command_out (set_command_external kw m).2) = true).
Proof.
  intros (H1 & H3 & H2 & H5) H4.
  destruct (set_command_external_facts kw m) as (Fs & Fc & Fd & Fo & Fn & Fx).
  assert (Hfault : is_Some (cmd_int_to_name_map !! STATE_FAULT))
    by (exists "fault"; vm_compute; reflexivity).
  split; [|split; [exact Fx|]].
  - unfold fsm_consistent. rewrite Fs, Fc, Fd.
    split; [|by repeat split].
    destruct Fn as [->|[->|Fn]]; assumption.
  - unfold changed. rewrite Fo.
    destruct (decide (CommandOut.state (values (command_out (set_command_external kw m).2)) = CommandOut.state (values (command_out m)))) as [He|He].
    + left. unfold start_completed. rewrite Fs, Fc, He. exact H4.
    + right. by apply bool_decide_eq_true.
Qed.

Lemma set_command_shape (kw : CommandIn.t) (m : t) :
  consistent m →
  fsm_consistent (set_command kw m).2
  ∧ (∀ ex, (set_command kw m).1 = Raise ex → is_Exception ex = true)
  ∧ ((set_command kw m).1 = Ok tt → start_completed (set_command kw m).2).
Proof.
  intros [Hm H4].
  destruct (set_command_external_shape kw m Hm H4) as (E1 & E2 & E3).
  destruct (set_command kw m) as [res m'] eqn:Hr. cbn [fst snd].
  unfold set_command, bind at 1 in Hr.
  destruct (set_command_external kw m) as [[[]|ex] m1]; cbn [fst snd] in *.
  2: { injection Hr as <- <-. split; [exact E1|]. split; [exact E2|].
       intros Hx. discriminate Hx. }
  destruct (set_command_event_shape m1 E1 E3) as (V1 & V2 & V3).
  unfold bind at 1 in Hr.
  destruct (set_command_event m1) as [[[]|ex] m2]; cbn [fst snd] in *.
  2: { injection Hr as <- <-. split; [exact V1|]. split; [exact V2|].
       intros Hx. discriminate Hx. }
  unfold bind, gets, modify, ret in Hr.
  destruct (changed CommandOut.state_log (command_out m2)); injection Hr as <- <-.
  all: split; [exact V1|]; split; [intros ex Hx; discriminate Hx|].
  all: intros _; exact (V3 eq_refl).
Qed.

Lemma fault_forced (log : string) (m : t) :
  fsm_consistent m →
  consistent (command_out_update
                (λ c, CommandOut.set_state_log log (CommandOut.set_state STATE_FAULT c)) m).
Proof.
  intros (H1 & H3 & H2 & H5).
  split; [|intros Hc; discriminate Hc].
  split; [exists "fault"; vm_compute; reflexivity|]. split; [exact H3|].
  split; [exact H2|exact H5].
Qed.

Section Consistency.

Variable reinit : FeedbackOut.t → FeedbackOut.t.

Lemma get_feedback_consistent dev_fb (m : t) :
  consistent m → consistent (get_feedback reinit dev_fb m).
Proof.
  destruct (get_feedback_spec reinit dev_fb m) as (Hs & _ & Hc & _).
  unfold consistent, fsm_consistent, start_completed. rewrite Hs, Hc. tauto.
Qed.

Lemma read_update_write_try_consistent inp (m : t) :
  consistent m →
  match read_update_write_try reinit inp m with
  | (Ok _, m1) => consistent m1
  | (Raise e, m1) => if is_Exception e then fsm_consistent m1 else consistent m1
  end.
Proof.
  intros Hm.
  pose proof (set_command_shape (cmd_in_kwargs inp) _
                (get_feedback_consistent (dev_get_feedback inp) m Hm)) as (S1 & S2 & S3).
  unfold read_update_write_try, bind, read, write, modify.
  destruct (io_read inp) as [e0|].
  { unfold raise. destruct (is_Exception e0); [apply Hm|exact Hm]. }
  unfold ret at 1.
  destruct (set_command _ _) as [[[]|ex] m2]; cbn [fst snd] in *.
  - destruct (io_write inp) as [e0|].
    + unfold raise. destruct (is_Exception e0); [exact S1|].
      split; [exact S1|exact (S3 eq_refl)].
    + split; [exact S1|exact (S3 eq_refl)].
  - rewrite (S2 _ eq_refl). exact S1.
Qed.

Lemma run_loop_body_consistent inp (m : t) :
  consistent m → consistent (run_loop_body reinit inp m).2.
Proof.
  intros Hm.
  assert (Hend : ∀ m1, consistent m1 →
            consistent ((ft <- gets fast_track ;;
                         if ft : bool then modify (with_fast_track false)
                         else modify (λ m, with_slept (S (slept m)) m)) m1).2).
  { intros m1 H1. unfold bind, gets, modify. by destruct (fast_track m1). }
  pose proof (read_update_write_try_consistent inp m Hm) as Htry.
  unfold run_loop_body, bind at 1.
  unfold try_except_else at 1, read_update_write, try_except_else at 1.
  destruct (read_update_write_try reinit inp m) as [[[]|e] m1].
  - apply Hend, Htry.
  - destruct e; cbn [is_Exception] in Htry.
    + apply Hend, Htry.
    + apply Hend. apply (fault_forced "Unexpected exception"), Htry.
    + apply Hend. apply (fault_forced "Unexpected exception"), Htry.
    + apply Hend. apply (fault_forced "Unexpected exception"), Htry.
    + apply Hend. apply (fault_forced "Unexpected exception"), Htry.
Qed.

Lemma run_loop_while_consistent inputs (m : t) :
  consistent m → consistent (run_loop_while reinit inputs m).2.
Proof.
  revert m. induction inputs as [|inp inputs IH]; intros m Hm; [exact Hm|].
  destruct (shutdown m) eqn:Hsd.
  - by rewrite run_loop_while_shutdown.
  - rewrite run_loop_while_cons by done. apply IH, run_loop_body_consistent, Hm.
Qed.

Lemma after_consistent devs inputs : consistent (after reinit devs inputs).
Proof.
  unfold after, run_loop, bind, modify. cbn [fst snd].
  apply run_loop_while_consistent.
  split; [|intros Hc; discriminate Hc].
  split; [exists "init"; vm_compute; reflexivity|].
  split; [|split; reflexivity].
  unfold GSM_states. cbn [state init with_shutdown with_fast_track].
  apply list_elem_of_here.
Qed.

End Consistency.

(** ** What holds after every run of the loop *)

(** X22.  Whatever the drives report and whatever the operator sends,
    hardware errors included, the commanded state at the end of a tick is
    one of INIT, STOP, START and FAULT: [state_str] returns its name and
    never raises. *)
Theorem commanded_state_always_named reinit devs inputs :
  ∃ c, c ∈ ["init"; "stop"; "start"; "fault"]
       ∧ state_str (after reinit devs inputs) = (Ok c, after reinit devs inputs).
Proof.
  destruct (after_consistent reinit devs inputs) as [([c Hc] & _) _].
  exists c. split; [|by apply state_str_run].
  rewrite !elem_of_cons.
  apply cmd_int_to_name_cases in Hc as [[_ ->]|[[_ ->]|[[_ ->]|[_ ->]]]]; eauto 8.
Qed.

(** X23.  At the end of every tick of every run, the state machine is in
    one of the ten states of [GSM], and
    [command_complete] is set exactly when that state is one of
    [init_complete], [fault_complete], [start_complete] and
    [stop_complete]. *)
Theorem command_complete_iff_complete_state reinit devs inputs :
  let m := after reinit devs inputs in
  state m ∈ GSM_states
  ∧ CommandOut.command_complete (values (command_out m)) = is_complete (state m).
Proof.
  destruct (after_consistent reinit devs inputs) as [(_ & H3 & H2 & _) _].
  split; [exact H3|exact H2].
Qed.

(** X24.  At the end of every tick of every run, the CiA-402 state that
    the manager asks of its drives is the one of the state of the state
    machine: FAULT in [fault_1] and [fault_complete], SWITCHED ON in
    [start_1], OPERATION ENABLED in [start_2] and [start_complete], and
    SWITCH ON DISABLED in every other state. *)
Theorem drive_state_follows_fsm reinit devs inputs :
  let m := after reinit devs inputs in
  CommandOut.drive_state (values (command_out m)) = drive_state_of (state m).
Proof.
  destruct (after_consistent reinit devs inputs) as [(_ & _ & _ & H5) _]. exact H5.
Qed.

(** X25.  In every run, when [get_feedback] reports [enabled], the state
    machine is in [start_complete]: the manager never reports the drives
    enabled before the start sequence has gone through [start_1] and
    [start_2]. *)
Theorem enabled_means_start_complete reinit devs inputs dev_fb :
  let m := after reinit devs inputs in
  FeedbackOut.enabled (values (feedback_out (get_feedback reinit dev_fb m))) = true →
  state m = "start_complete".
Proof.
  intros m He. subst m.
  destruct (after_consistent reinit devs inputs) as [_ H4].
  destruct (get_feedback_spec reinit dev_fb (after reinit devs inputs))
    as (_&_&_&_&_&_&_&Hg&_&_&Hen).
  rewrite Hen, Hg in He.
  apply andb_prop in He as [He _]. apply andb_prop in He as [Hs Hc].
  apply H4; [by apply N.eqb_eq|exact Hc].
Qed.

Lemma enabled_means_start_complete_witness :
  FeedbackOut.enabled
    (values (feedback_out
       (get_feedback reset_to_defaults (drive_at "OPERATION ENABLED")
          (after reset_to_defaults [drive_a] (cold_init ++ start_sequence))))) = true
  ∧ state (after reset_to_defaults [drive_a] (cold_init ++ start_sequence))
    = "start_complete".
Proof.
  assert (H : FeedbackOut.enabled
    (values (feedback_out
       (get_feedback reset_to_defaults (drive_at "OPERATION ENABLED")
          (after reset_to_defaults [drive_a] (cold_init ++ start_sequence))))) = true)
    by (vm_compute; reflexivity).
  split; [exact H|].
  exact (enabled_means_start_complete reset_to_defaults [drive_a]
           (cold_init ++ start_sequence) (drive_at "OPERATION ENABLED") H).
Defined.

(** X26.  In every run, when [set_command] returns, every CiA402 drive
    is commanded the CiA-402 state of the state the state machine is now
    in; a drive is commanded OPERATION ENABLED only in [start_2] and
    [start_complete]. *)
Theorem drives_follow_fsm_state reinit devs inputs dev_fb kw m' :
  set_command kw (get_feedback reinit dev_fb (after reinit devs inputs)) = (Ok tt, m') →
  Forall (λ dev, Device.cia402 dev = true →
                 Device.command_state dev = drive_state_of (state m'))
         (devices m').
Proof.
  intros Hr.
  pose proof (set_command_shape kw _
                (get_feedback_consistent reinit dev_fb _
                   (after_consistent reinit devs inputs))) as ((_ & _ & _ & H5) & _).
  rewrite Hr in H5. cbn [fst snd] in H5.
  rewrite (set_command_devices _ _ _ Hr), H5.
  apply Forall_fmap, Forall_forall. intros dev _. unfold drive_commanded. cbn.
  destruct (Device.cia402 dev) eqn:Hc; cbn; [done|].
  rewrite Hc. discriminate.
Qed.

Lemma drives_follow_fsm_state_witness :
  let m' := (set_command (command STATE_START) stopped).2 in
  state m' = "start_1"
  ∧ Forall (λ dev, Device.cia402 dev = true →
                   Device.command_state dev = drive_state_of (state m'))
           (devices m').
Proof.
  intros m'. split; [vm_compute; reflexivity|].
  apply (drives_follow_fsm_state reset_to_defaults [drive_a] cold_init
           (drive_at "SWITCH ON DISABLED") (command STATE_START) m').
  vm_compute. reflexivity.
Defined.

(** ** An INIT command after initialization *)

Lemma GSM_dst_init_command (src : string) :
  src ≠ "init_command" → GSM_dst "init_command" src = None.
Proof.
  intros H. apply String.eqb_neq in H.
  unfold GSM_dst, GSM_events. cbn. by rewrite H.
Qed.

(** X27.  [state_set] rises with the command INIT while the commanded
    state is another one and the state machine has left its initial state
    [init_command]: the command is latched, and its event
    ["init_command"], which may fire in the initial state only, makes
    [set_command] raise [FysomError].  The state machine stays where it
    is, the commanded state is left at INIT and the drives are not
    commanded. *)
Theorem init_command_refused (kw : CommandIn.t) (m : t) :
  CommandIn.state_set (values (command_in m)) = false →
  CommandIn.state_set kw = true →
  CommandIn.state_cmd kw = STATE_INIT →
  CommandOut.state (values (command_out m)) ≠ STATE_INIT →
  new_fault_fb m = false →
  state m ≠ "init_command" →
  ∃ m', set_command kw m
        = (Raise (FysomError ("event init_command inappropriate in current state "
                              +:+ state m)), m')
        ∧ state m' = state m
        ∧ CommandOut.state (values (command_out m')) = STATE_INIT
        ∧ devices m' = devices m.
Proof.
  intros Hold Hset Hcmd Hne Hnf Hs.
  assert (Hname : cmd_int_to_name_map !! CommandIn.state_cmd kw = Some "init")
    by (rewrite Hcmd; vm_compute; reflexivity).
  rewrite <- Hcmd in Hne. apply not_eq_sym in Hne.
  pose proof (set_command_external_latch kw m "init" Hold Hset Hname Hne Hnf) as Hext.
  unfold set_command, bind at 1. rewrite Hext. clear Hext.
  set (m1 := command_out_update _ _).
  assert (Hch : changed CommandOut.state (command_out m1) = true).
  { unfold changed. apply bool_decide_eq_true. exact Hne. }
  assert (Hst : state_str m1 = (Ok "init", m1)).
  { apply state_str_run. exact Hname. }
  unfold bind at 1, set_command_event, bind at 1, gets at 1. rewrite Hch.
  unfold bind at 1, gets at 1, bind at 1. rewrite Hst.
  unfold bind at 1, modify at 1, bind at 1, gets at 1, try_except_else.
  change ("init" +:+ "_command") with "init_command".
  unfold trigger, bind at 1, gets at 1.
  set (m2 := logger_log DEBUG _ m1).
  change (state m2) with (state m).
  rewrite (GSM_dst_init_command (state m) Hs).
  eexists. split; [reflexivity|]. cbn. rewrite Hcmd.
  split; [reflexivity|]. split; reflexivity.
Qed.

Lemma init_command_refused_witness :
  let r := set_command (command STATE_INIT) stopped in
  r.1 = Raise (FysomError "event init_command inappropriate in current state stop_complete")
  ∧ state r.2 = "stop_complete"
  ∧ CommandOut.state (values (command_out r.2)) = STATE_INIT.
Proof.
  intros r. subst r.
  assert (Hs : state stopped = "stop_complete") by (vm_compute; reflexivity).
  destruct (init_command_refused (command STATE_INIT) stopped)
    as (m' & Hr & Hst & Hc & _).
  - vm_compute. reflexivity.
  - reflexivity.
  - reflexivity.
  - vm_compute. discriminate.
  - vm_compute. reflexivity.
  - rewrite Hs. discriminate.
  - rewrite Hr. cbn [fst snd]. rewrite Hs in Hr, Hst.
    split; [rewrite Hs; reflexivity|]. split; [exact Hst|exact Hc].
Defined.

(** ** The drive status checks of the older manager *)

(** X28.  [one_drive_has_status] and [all_drives_are_not_status] always
    give opposite answers, for every status and every set of drives, the
    empty one included. *)
Theorem one_drive_has_status_negates (status : string)
    (drives : Hal402MgrStatus.Drives) :
  Hal402MgrStatus.one_drive_has_status status drives
  = negb (Hal402MgrStatus.all_drives_are_not_status status drives).
Proof.
  induction drives as [|[key curr_state] drives IH]; [reflexivity|].
  cbn. destruct (String.eqb curr_state status); [reflexivity|exact IH].
Qed.

(** X29.  When one drive is in the state [status], the drives are not all
    in another state [status']: a drive in FAULT makes
    [all_drives_are_status('OPERATION ENABLED')] false, so in
    [manage_errors] the check of the state [enabled] covers the faulted
    drive too. *)
Theorem one_drive_elsewhere (status status' : string)
    (drives : Hal402MgrStatus.Drives) :
  status ≠ status' →
  Hal402MgrStatus.one_drive_has_status status drives = true →
  Hal402MgrStatus.all_drives_are_status status' drives = false.
Proof.
  intros Hne. induction drives as [|[key curr_state] drives IH]; [discriminate|].
  cbn. destruct (String.eqb_spec curr_state status) as [->|_].
  - intros _. by rewrite (proj2 (String.eqb_neq _ _) Hne).
  - intros H. destruct (String.eqb curr_state status'); cbn; [by apply IH|reflexivity].
Qed.

Lemma one_drive_elsewhere_witness :
  Hal402MgrStatus.one_drive_has_status "FAULT"
    [("drive_1", "OPERATION ENABLED"); ("drive_2", "FAULT")] = true
  ∧ Hal402MgrStatus.all_drives_are_status "OPERATION ENABLED"
      [("drive_1", "OPERATION ENABLED"); ("drive_2", "FAULT")] = false.
Proof.
  assert (H : Hal402MgrStatus.one_drive_has_status "FAULT"
                [("drive_1", "OPERATION ENABLED"); ("drive_2", "FAULT")] = true)
    by reflexivity.
  split; [exact H|].
  apply (one_drive_elsewhere "FAULT" "OPERATION ENABLED"); [discriminate|exact H].
Defined.

(** ** A drive in FAULT shows in the manager's fault *)








